(** * ARM emulator core (src/lib/wasm/emulator.cpp): shallow embedding

    The class [ARMEmulatorCore] is embedded as a record [Engine] and its
    member functions as pure functions that take the engine and return the
    new one together with the C++ return value.

    Conventions.
    - [uint32_t] and [uint64_t] values are integers of [Z] with the
      wrap-around written out ([wrap32], [wrap64]).
    - [registers] is the array [uint32_t registers[17]], a list of 17 words.
    - [memory] is the heap buffer: [None] is the null pointer, [Some buf] a
      buffer whose length is its allocated size, one [Z] in [0,256) per byte.
    - An access that leaves the allocated buffer has no defined result in
      C++; the embedding reports it as [OutOfBuffer] instead of inventing one.
    - The module is built for WebAssembly (it includes emscripten.h), where a
      32-bit shift takes its count modulo 32; [shl32], [shr32] and [sar32]
      follow that for counts of 32 and more.
    - [calloc] and [realloc] may fail; the functions that call them take the
      outcome of the allocation as a boolean argument. *)

From Stdlib Require Import ZArith Lia Bool List.
From stdpp Require Import base list.

Local Open Scope Z_scope.

(** ** Machine arithmetic *)

Definition wrap32 (x : Z) : Z := x mod 2 ^ 32.
Definition wrap64 (x : Z) : Z := x mod 2 ^ 64.

(** [(int32_t)x] for a 32-bit unsigned [x]. *)
Definition to_int32 (x : Z) : Z := if x <? 2 ^ 31 then x else x - 2 ^ 32.

(** [(x >> n) & 1] read as a C++ [bool]. *)
Definition bit (x n : Z) : bool := negb (Z.land (Z.shiftr x n) 1 =? 0).

Definition shl32 (x n : Z) : Z := wrap32 (Z.shiftl x (n mod 32)).
Definition shr32 (x n : Z) : Z := Z.shiftr x (n mod 32).
Definition sar32 (x n : Z) : Z := wrap32 (Z.shiftr (to_int32 x) (n mod 32)).

(** [~x] on a 32-bit unsigned [x]. *)
Definition not32 (x : Z) : Z := wrap32 (Z.lnot x).

(** ** Results of operations that touch the buffer *)

Inductive outcome (A : Type) : Type :=
| Ok (a : A)
| OutOfBuffer
| Diverges.
Arguments Ok {A} a.
Arguments OutOfBuffer {A}.
Arguments Diverges {A}.

Definition obind {A B : Type} (m : outcome A) (f : A → outcome B) : outcome B :=
  match m with
  | Ok a => f a
  | OutOfBuffer => OutOfBuffer
  | Diverges => Diverges
  end.

Notation "x ←← m ;; k" := (obind m (fun x => k))
  (at level 100, m at next level, right associativity).

(** ** The engine state *)

Record Engine : Type := mkEngine {
  registers : list Z;
  memory : option (list Z);
  memorySize : Z;
  memoryCapacity : Z;
  isRunning : bool;
  pc : Z;
  sp : Z;
  lr : Z;
  instructionCount : Z
}.

Definition set_registers (e : Engine) (r : list Z) : Engine :=
  mkEngine r (memory e) (memorySize e) (memoryCapacity e) (isRunning e)
           (pc e) (sp e) (lr e) (instructionCount e).
Definition set_memory (e : Engine) (m : option (list Z)) : Engine :=
  mkEngine (registers e) m (memorySize e) (memoryCapacity e) (isRunning e)
           (pc e) (sp e) (lr e) (instructionCount e).
Definition set_memorySize (e : Engine) (n : Z) : Engine :=
  mkEngine (registers e) (memory e) n (memoryCapacity e) (isRunning e)
           (pc e) (sp e) (lr e) (instructionCount e).
Definition set_memoryCapacity (e : Engine) (n : Z) : Engine :=
  mkEngine (registers e) (memory e) (memorySize e) n (isRunning e)
           (pc e) (sp e) (lr e) (instructionCount e).
Definition set_pc (e : Engine) (v : Z) : Engine :=
  mkEngine (registers e) (memory e) (memorySize e) (memoryCapacity e)
           (isRunning e) v (sp e) (lr e) (instructionCount e).
Definition set_sp (e : Engine) (v : Z) : Engine :=
  mkEngine (registers e) (memory e) (memorySize e) (memoryCapacity e)
           (isRunning e) (pc e) v (lr e) (instructionCount e).
Definition set_lr (e : Engine) (v : Z) : Engine :=
  mkEngine (registers e) (memory e) (memorySize e) (memoryCapacity e)
           (isRunning e) (pc e) (sp e) v (instructionCount e).
Definition set_instructionCount (e : Engine) (n : Z) : Engine :=
  mkEngine (registers e) (memory e) (memorySize e) (memoryCapacity e)
           (isRunning e) (pc e) (sp e) (lr e) n.

(** [registers[i]] and [registers[i] = v]. *)
Definition reg (e : Engine) (i : Z) : Z := registers e !!! Z.to_nat i.
Definition write_reg (e : Engine) (i v : Z) : Engine :=
  set_registers e (<[Z.to_nat i := v]> (registers e)).

Definition cpsr (e : Engine) : Z := reg e 16.

(** The buffer behind a non-null [memory]. *)
Definition buffer (e : Engine) : list Z := default [] (memory e).

Definition initialized (e : Engine) : Prop := memory e ≠ None.

(** The constructor: no memory, every field and register zero. *)
Definition ARMEmulatorCore : Engine :=
  mkEngine (replicate 17 0) None 0 0 false 0 0 0 0.

(** ** Buffer accesses *)

Definition zeros (n : Z) : list Z := replicate (Z.to_nat n) 0.

(** [memcpy(memory + address, data, length)]. *)
Definition memcpy_to (buf : list Z) (address : Z) (data : list Z) : list Z :=
  take (Z.to_nat address) buf ++ data
    ++ drop (Z.to_nat address + length data)%nat buf.

(** [memcpy(output, memory + address, length)]. *)
Definition memcpy_from (buf : list Z) (address len : Z) : list Z :=
  take (Z.to_nat len) (drop (Z.to_nat address) buf).

Definition load8 (buf : list Z) (address : Z) : Z := buf !!! Z.to_nat address.

(** [*(uint32_t* )(memory + address)], little-endian. *)
Definition load32 (buf : list Z) (address : Z) : Z :=
  load8 buf address
  + Z.shiftl (load8 buf (address + 1)) 8
  + Z.shiftl (load8 buf (address + 2)) 16
  + Z.shiftl (load8 buf (address + 3)) 24.

Definition store8 (buf : list Z) (address v : Z) : list Z :=
  <[Z.to_nat address := v]> buf.

Definition store32 (buf : list Z) (address v : Z) : list Z :=
  store8 (store8 (store8 (store8 buf address (Z.land v 0xFF))
                         (address + 1) (Z.land (Z.shiftr v 8) 0xFF))
                 (address + 2) (Z.land (Z.shiftr v 16) 0xFF))
         (address + 3) (Z.land (Z.shiftr v 24) 0xFF).

(** ** init, registers, program counter *)

Definition default_capacity : Z := 64 * 1024 * 1024.

Definition init (calloc_ok : bool) (e : Engine) (initialSize : Z)
  : bool * Engine :=
  let capacity := if 0 <? initialSize then initialSize else default_capacity in
  if calloc_ok then
    let sp' := wrap32 (capacity - 4) in
    (true,
     mkEngine (<[15%nat := 0]> (<[13%nat := sp']> (registers e)))
              (Some (zeros capacity)) capacity capacity false
              0 sp' 0 0)
  else
    (false, set_memoryCapacity (set_memory e None) capacity).

Definition setRegister (e : Engine) (r value : Z) : Engine :=
  if r <? 16 then
    let e1 := write_reg e r value in
    let e2 := if r =? 13 then set_sp e1 value else e1 in
    if r =? 15 then set_pc e2 value else e2
  else if r =? 16 then write_reg e 16 value
  else e.

Definition getRegister (e : Engine) (r : Z) : Z :=
  if r <? 16 then reg e r else if r =? 16 then reg e 16 else 0.

Definition getInstructionCount (e : Engine) : Z := instructionCount e.
Definition getMemorySize (e : Engine) : Z := memorySize e.
Definition getPC (e : Engine) : Z := pc e.

Definition setPC (e : Engine) (value : Z) : Engine :=
  write_reg (set_pc e value) 15 value.

(** ** Condition codes *)

Definition checkCondition (e : Engine) (cond : Z) : bool :=
  let N := bit (cpsr e) 31 in
  let Zf := bit (cpsr e) 30 in
  let C := bit (cpsr e) 29 in
  let V := bit (cpsr e) 28 in
  match cond with
  | 0x0 => Zf
  | 0x1 => negb Zf
  | 0x2 => C
  | 0x3 => negb C
  | 0x4 => N
  | 0x5 => negb N
  | 0x6 => V
  | 0x7 => negb V
  | 0x8 => C && negb Zf
  | 0x9 => negb C || Zf
  | 0xA => eqb N V
  | 0xB => negb (eqb N V)
  | 0xC => negb Zf && eqb N V
  | 0xD => Zf || negb (eqb N V)
  | 0xE => true
  | 0xF => true
  | _ => true
  end.

(** ** Data processing *)

(** The 4-bit register fields and the other fields of an instruction word. *)
Definition field_op (instruction : Z) : Z := Z.land (Z.shiftr instruction 21) 0xF.
Definition field_Rn (instruction : Z) : Z := Z.land (Z.shiftr instruction 16) 0xF.
Definition field_Rd (instruction : Z) : Z := Z.land (Z.shiftr instruction 12) 0xF.
Definition field_Rs (instruction : Z) : Z := Z.land (Z.shiftr instruction 8) 0xF.
Definition field_Rm (instruction : Z) : Z := Z.land instruction 0xF.

(** [shiftAmount] of the register form: bits[11:7] when bit 4 is set,
    [registers[Rs] & 0xFF] otherwise. *)
Definition shiftAmount (e : Engine) (instruction : Z) : Z :=
  if bit instruction 4 then Z.land (Z.shiftr instruction 7) 0x1F
  else Z.land (reg e (field_Rs instruction)) 0xFF.

(** The [switch (shiftType)] of the register form. *)
Definition barrelShift (shiftType op2 amount : Z) : Z :=
  match shiftType with
  | 0x0 => shl32 op2 amount
  | 0x1 => shr32 op2 amount
  | 0x2 => sar32 op2 amount
  | 0x3 => Z.lor (shr32 op2 amount) (shl32 op2 (wrap32 (32 - amount)))
  | _ => op2
  end.

(** The second operand [op2]. *)
Definition operand2 (e : Engine) (instruction : Z) : Z :=
  if bit instruction 25 then
    let imm := Z.land instruction 0xFF in
    let rotate := Z.land (Z.shiftr instruction 8) 0xF * 2 in
    Z.lor (shr32 imm rotate) (shl32 imm (32 - rotate))
  else
    barrelShift (Z.land (Z.shiftr instruction 5) 0x3)
                (reg e (field_Rm instruction)) (shiftAmount e instruction).

(** The [switch (op)]: the result and the local [carry]. *)
Definition alu (op op1 op2 cin : Z) : Z * bool :=
  match op with
  | 0x0 => (Z.land op1 op2, false)
  | 0x1 => (Z.lxor op1 op2, false)
  | 0x2 => (wrap32 (op1 - op2), op2 <=? op1)
  | 0x3 => (wrap32 (op2 - op1), op1 <=? op2)
  | 0x4 => let r := wrap32 (op1 + op2) in (r, r <? op1)
  | 0x5 => let r := wrap32 (op1 + op2 + cin) in (r, r <? op1)
  | 0x6 => let r := wrap32 (op1 - op2 - (1 - cin)) in (r, r <? op1)
  | 0x7 => let r := wrap32 (op2 - op1 - (1 - cin)) in (r, r <? op2)
  | 0x8 => (Z.land op1 op2, false)
  | 0x9 => (Z.lxor op1 op2, false)
  | 0xA => (wrap32 (op1 - op2), op2 <=? op1)
  | 0xB => let r := wrap32 (op1 + op2) in (r, r <? op1)
  | 0xC => (Z.lor op1 op2, false)
  | 0xD => (op2, false)
  | 0xE => (Z.land op1 (not32 op2), false)
  | 0xF => (not32 op2, false)
  | _ => (0, false)
  end.

(** [S] after the switch: the S bit, forced for TST, TEQ, CMP and CMN. *)
Definition sets_flags (instruction : Z) : bool :=
  let op := field_op instruction in
  bit instruction 20 || ((0x8 <=? op) && (op <=? 0xB)).

(** The guard of the flag update, [S && (Rd != 15 || op >= 0x8)]. *)
Definition updates_flags (instruction : Z) : bool :=
  sets_flags instruction
  && (negb (field_Rd instruction =? 15) || (0x8 <=? field_op instruction)).

(** The new CPSR of the flag update. *)
Definition new_cpsr (old result : Z) (carry : bool) : Z :=
  let c0 := Z.land old 0x0FFFFFFF in
  let c1 := Z.lor c0 (Z.shiftl (Z.land (Z.shiftr result 31) 1) 31) in
  let c2 := Z.lor c1 (Z.shiftl (if result =? 0 then 1 else 0) 30) in
  Z.lor c2 (Z.shiftl (if carry then 1 else 0) 29).

Definition executeDataProcessing (e : Engine) (instruction : Z)
  : bool * Engine :=
  let op := field_op instruction in
  let Rn := field_Rn instruction in
  let Rd := field_Rd instruction in
  let op1 := reg e Rn in
  let op2 := operand2 e instruction in
  let '(result, carry) := alu op op1 op2 (Z.land (Z.shiftr (cpsr e) 29) 1) in
  let e1 :=
    if (op <? 0x8) || (0xB <? op) then
      if Rd =? 15 then set_pc e result else write_reg e Rd result
    else e in
  let e2 :=
    if updates_flags instruction
    then write_reg e1 16 (new_cpsr (cpsr e1) result carry)
    else e1 in
  (true, e2).

(** ** Branch *)

(** [offset] after the sign extension, as the 32-bit pattern that the
    addition to [pc] uses. *)
Definition branch_offset (instruction : Z) : Z :=
  let offset := wrap32 (Z.shiftl (Z.land instruction 0xFFFFFF) 2) in
  if negb (Z.land offset 0x2000000 =? 0) then Z.lor offset 0xFC000000
  else offset.

Definition executeBranch (e : Engine) (instruction : Z) : bool * Engine :=
  let L := bit instruction 24 in
  let offset := branch_offset instruction in
  let e1 :=
    if L then
      let lr' := wrap32 (pc e + 4) in
      write_reg (set_lr e lr') 14 lr'
    else e in
  let pc' := wrap32 (pc e1 + 8 + offset) in
  (true, write_reg (set_pc e1 pc') 15 pc').

(** ** Load and store *)

(** [offset]: bits[11:0] when bit 25 is set, [registers[Rm]] otherwise. *)
Definition ls_offset (e : Engine) (instruction : Z) : Z :=
  if bit instruction 25 then Z.land instruction 0xFFF
  else reg e (field_Rm instruction).

(** [U ? (baseAddr + offset) : (baseAddr - offset)]. *)
Definition ls_indexed (e : Engine) (instruction : Z) : Z :=
  let baseAddr := reg e (field_Rn instruction) in
  let offset := ls_offset e instruction in
  if bit instruction 23 then wrap32 (baseAddr + offset)
  else wrap32 (baseAddr - offset).

Definition ls_address (e : Engine) (instruction : Z) : Z :=
  if bit instruction 24 then ls_indexed e instruction
  else reg e (field_Rn instruction).

(** [B ? 1 : 4]. *)
Definition ls_width (instruction : Z) : Z :=
  if bit instruction 22 then 1 else 4.

(** The guard [!memory || address + (B ? 1 : 4) > memorySize]. *)
Definition ls_rejects (e : Engine) (instruction : Z) : bool :=
  match memory e with
  | None => true
  | Some _ =>
    memorySize e <? wrap32 (ls_address e instruction + ls_width instruction)
  end.

Definition executeLoadStore (e : Engine) (instruction : Z)
  : outcome (bool * Engine) :=
  let L := bit instruction 20 in
  let B := bit instruction 22 in
  let Rn := field_Rn instruction in
  let Rd := field_Rd instruction in
  let P := bit instruction 24 in
  let address := ls_address e instruction in
  let writeback := ls_indexed e instruction in
  if ls_rejects e instruction then Ok (false, e)
  else
    let buf := buffer e in
    if Z.of_nat (length buf) <? address + ls_width instruction then
      OutOfBuffer
    else
      let e1 :=
        if L then
          let e' := write_reg e Rd (if B then load8 buf address
                                    else load32 buf address) in
          if Rd =? 15 then set_pc e' (reg e' Rd) else e'
        else
          set_memory e
            (Some (if B then store8 buf address (Z.land (reg e Rd) 0xFF)
                   else store32 buf address (reg e Rd))) in
      let e2 := if P then e1 else write_reg e1 Rn writeback in
      Ok (true, e2).

(** ** executeInstruction *)

Definition field_opcode (instruction : Z) : Z :=
  Z.land (Z.shiftr instruction 26) 0x3.
Definition field_cond (instruction : Z) : Z :=
  Z.land (Z.shiftr instruction 28) 0xF.

(** The test that routes a word to [executeLoadStore]. *)
Definition is_load_store (instruction : Z) : bool :=
  (field_opcode instruction =? 0x1)
  || ((field_opcode instruction =? 0x0) && bit instruction 25).

Definition executeInstruction (e : Engine) (instruction : Z)
  : outcome (bool * Engine) :=
  match memory e with
  | None => Ok (false, e)
  | Some _ =>
    let e := set_instructionCount e (wrap64 (instructionCount e + 1)) in
    let opcode := field_opcode instruction in
    let cond := field_cond instruction in
    if negb (checkCondition e cond) then Ok (true, e)
    else if (opcode =? 0x0) && negb (bit instruction 25) then
      Ok (executeDataProcessing e instruction)
    else if opcode =? 0x2 then
      Ok (executeBranch e instruction)
    else if is_load_store instruction then
      executeLoadStore e instruction
    else Ok (false, e)
  end.

(** [executeInstructions]: the number of words executed with success before
    the first failure. *)
Fixpoint executeInstructions (e : Engine) (instructions : list Z)
  : outcome (Z * Engine) :=
  match instructions with
  | [] => Ok (0, e)
  | i :: rest =>
    r ←← executeInstruction e i ;;
    if fst r then
      r' ←← executeInstructions (snd r) rest ;;
      Ok (wrap32 (fst r' + 1), snd r')
    else Ok (0, snd r)
  end.

(** ** Memory operations *)

(** The loop [while (newCapacity < size) newCapacity *= 2]; [None] when the
    fuel runs out. *)
Fixpoint grow (fuel : nat) (newCapacity size : Z) : option Z :=
  if newCapacity <? size then
    match fuel with
    | O => None
    | S fuel' => grow fuel' (wrap32 (newCapacity * 2)) size
    end
  else Some newCapacity.

(** [ensureMemory].  After 32 doublings a 32-bit capacity is 0, and the loop
    cannot leave 0, so fuel 32 decides whether it terminates
    ([grow_out_of_fuel_forever]). *)
Definition ensureMemory (realloc_ok : bool) (e : Engine) (size : Z)
  : outcome (bool * Engine) :=
  if size <=? memoryCapacity e then Ok (true, e)
  else
    match grow 32 (wrap32 (memoryCapacity e * 2)) size with
    | None => Diverges
    | Some newCapacity =>
      if realloc_ok then
        Ok (true,
            set_memoryCapacity
              (set_memory e
                 (Some (buffer e ++ zeros (newCapacity - memoryCapacity e))))
              newCapacity)
      else Ok (false, e)
    end.

Definition writeMemory (realloc_ok : bool) (e : Engine) (address : Z)
  (data : list Z) : outcome (bool * Engine) :=
  let len := Z.of_nat (length data) in
  let last := wrap32 (address + len) in
  match memory e with
  | None => Ok (false, e)
  | Some _ =>
    r ←← (if memoryCapacity e <? last then ensureMemory realloc_ok e last
          else Ok (true, e)) ;;
    if negb (fst r) then Ok (false, snd r)
    else
      let e1 := snd r in
      if Z.of_nat (length (buffer e1)) <? address + len then OutOfBuffer
      else
        let e2 := set_memory e1 (Some (memcpy_to (buffer e1) address data)) in
        Ok (true, if memorySize e2 <? last then set_memorySize e2 last else e2)
  end.

(** The guard of [readMemory]: [!memory || address + length > memorySize]. *)
Definition readMemory_rejects (e : Engine) (address len : Z) : bool :=
  match memory e with
  | None => true
  | Some _ => memorySize e <? wrap32 (address + len)
  end.

(** [readMemory]: [None] for the return value [false], [Some bytes] for
    [true] with the bytes copied to [output]. *)
Definition readMemory (e : Engine) (address len : Z)
  : outcome (option (list Z)) :=
  if readMemory_rejects e address len then Ok None
  else if Z.of_nat (length (buffer e)) <? address + len then OutOfBuffer
  else Ok (Some (memcpy_from (buffer e) address len)).

(** * Predicates used in the statements *)

(** A 32-bit unsigned value. *)
Definition word32 (x : Z) : Prop := 0 ≤ x < 2 ^ 32.
Definition word32b (x : Z) : bool := (0 <=? x) && (x <? 2 ^ 32).

(** The register file has its 17 entries and each is a 32-bit word. *)
Definition registers_okb (e : Engine) : bool :=
  (length (registers e) =? 17)%nat && forallb word32b (registers e).

Definition registers_ok (e : Engine) : Prop := registers_okb e = true.

(** The shadows agree with R13, R14 and R15. *)
Definition shadows_consistent (e : Engine) : Prop :=
  reg e 13 = sp e ∧ reg e 14 = lr e ∧ reg e 15 = pc e.

(** The buffer has [memoryCapacity] bytes, the logical size is within the
    capacity, and the capacity is a 32-bit value. *)
Definition memory_ok (e : Engine) : Prop :=
  Z.of_nat (length (buffer e)) = memoryCapacity e
  ∧ 0 ≤ memorySize e ≤ memoryCapacity e
  ∧ memoryCapacity e < 2 ^ 32.

(** A sequence of [setRegister] calls. *)
Definition setRegisters (e : Engine) (sets : list (Z * Z)) : Engine :=
  foldl (λ e rv, setRegister e rv.1 rv.2) e sets.

(** The sign extension of a 26-bit value, as the branch executor is
    specified: values from 2^25 on stand for the negative numbers. *)
Definition sign_extend_26 (x : Z) : Z := if x <? 2 ^ 25 then x else x - 2 ^ 26.

(** * Engines used in the examples *)

(** A created engine after [init(16)]. *)
Definition engine16 : Engine := snd (init true ARMEmulatorCore 16).

(** The same with R1 or with the CPSR set through [setRegister]. *)
Definition engine16_R1 (value : Z) : Engine := setRegister engine16 1 value.
Definition engine16_CPSR (value : Z) : Engine := setRegister engine16 16 value.

(** A created engine after [init(32)]. *)
Definition engine32 : Engine := snd (init true ARMEmulatorCore 32).

(** An engine in use: CPSR, R2 and R14 set. *)
Definition engine16_used : Engine :=
  setRegister (setRegister (engine16_CPSR 0x60000000) 2 7) 14 0x44.

(** Everything but the instruction counter is the same. *)
Definition same_but_counter (e e' : Engine) : Prop :=
  registers e' = registers e ∧ memory e' = memory e
  ∧ memorySize e' = memorySize e ∧ memoryCapacity e' = memoryCapacity e
  ∧ pc e' = pc e ∧ sp e' = sp e ∧ lr e' = lr e.

(** * Properties *)

#[local] Arguments wrap32 : simpl never.
#[local] Arguments wrap64 : simpl never.
#[local] Arguments bit : simpl never.
#[local] Arguments branch_offset : simpl never.
#[local] Arguments Z.pow : simpl never.
#[local] Arguments Z.add : simpl never.
#[local] Arguments Z.of_nat : simpl never.
#[local] Arguments Z.to_nat : simpl never.

(** ** Words, fields and single bits *)

Lemma wrap32_word32 x : word32 (wrap32 x).
Proof. unfold word32, wrap32. apply Z.mod_pos_bound. lia. Qed.

Lemma wrap32_id x : word32 x → wrap32 x = x.
Proof. unfold word32, wrap32. intros H. apply Z.mod_small. lia. Qed.

Lemma wrap64_succ n : 0 ≤ n < 2 ^ 64 - 1 → wrap64 (n + 1) = n + 1.
Proof. unfold wrap64. intros H. apply Z.mod_small. lia. Qed.

Lemma land_ones_range x n : 0 ≤ n → 0 ≤ Z.land x (Z.ones n) < 2 ^ n.
Proof.
  intros Hn. rewrite Z.land_ones by lia. apply Z.mod_pos_bound.
  apply Z.pow_pos_nonneg; lia.
Qed.

Lemma nibble_range x : 0 ≤ Z.land x 0xF < 16.
Proof. apply (land_ones_range x 4). lia. Qed.

Lemma field_Rn_range i : 0 ≤ field_Rn i < 16.
Proof. apply nibble_range. Qed.
Lemma field_Rd_range i : 0 ≤ field_Rd i < 16.
Proof. apply nibble_range. Qed.
Lemma field_Rm_range i : 0 ≤ field_Rm i < 16.
Proof. apply nibble_range. Qed.
Lemma field_Rs_range i : 0 ≤ field_Rs i < 16.
Proof. apply nibble_range. Qed.
Lemma field_op_range i : 0 ≤ field_op i < 16.
Proof. apply nibble_range. Qed.

Lemma field_opcode_range i : 0 ≤ field_opcode i < 4.
Proof. apply (land_ones_range _ 2). lia. Qed.

(** [bit] is the bit of [Z.testbit]. *)
Lemma bit_testbit x n : 0 ≤ n → bit x n = Z.testbit x n.
Proof.
  intros Hn. unfold bit. rewrite Z.testbit_odd.
  change 1 with (Z.ones 1). rewrite Z.land_ones by lia.
  change (2 ^ 1) with 2. rewrite Zmod_odd.
  destruct (Z.odd (Z.shiftr x n)); reflexivity.
Qed.

(** ** The register file *)

Lemma registers_ok_spec e :
  registers_ok e → length (registers e) = 17%nat ∧ Forall word32 (registers e).
Proof.
  unfold registers_ok, registers_okb. intros H.
  apply andb_true_iff in H as [Hlen Hall]. split.
  - by apply Nat.eqb_eq.
  - apply Forall_forall. intros x Hx. apply list_elem_of_In in Hx.
    rewrite forallb_forall in Hall. specialize (Hall x Hx).
    unfold word32b in Hall. unfold word32. lia.
Qed.

Lemma reg_write_reg_eq e i v :
  (Z.to_nat i < length (registers e))%nat → reg (write_reg e i v) i = v.
Proof.
  intros H. unfold reg, write_reg. simpl.
  by apply list_lookup_total_insert_eq.
Qed.

Lemma reg_write_reg_ne e i j v :
  Z.to_nat i ≠ Z.to_nat j → reg (write_reg e i v) j = reg e j.
Proof.
  intros H. unfold reg, write_reg. simpl.
  by apply list_lookup_total_insert_ne.
Qed.

(** The setters of the other fields do not touch the registers. *)
Lemma reg_set_pc e v i : reg (set_pc e v) i = reg e i.
Proof. reflexivity. Qed.
Lemma reg_set_sp e v i : reg (set_sp e v) i = reg e i.
Proof. reflexivity. Qed.
Lemma reg_set_lr e v i : reg (set_lr e v) i = reg e i.
Proof. reflexivity. Qed.
Lemma reg_set_memory e m i : reg (set_memory e m) i = reg e i.
Proof. reflexivity. Qed.
Lemma reg_set_instructionCount e n i : reg (set_instructionCount e n) i = reg e i.
Proof. reflexivity. Qed.

Create Rewrite HintDb engine_frame.
#[local] Hint Rewrite reg_set_pc reg_set_sp reg_set_lr reg_set_memory
  reg_set_instructionCount : engine_frame.

(** Side conditions of the two lemmas above, for explicit register numbers. *)
Ltac reg_len :=
  cbn [registers write_reg set_registers set_pc set_sp set_lr set_memory
       set_memorySize set_memoryCapacity set_instructionCount];
  rewrite ?length_insert; lia.
Ltac reg_ne := lia.

Lemma reg_word32 e i : registers_ok e → 0 ≤ i ≤ 16 → word32 (reg e i).
Proof.
  intros [Hlen Hall]%registers_ok_spec Hi. unfold reg.
  assert (Hlt : (Z.to_nat i < length (registers e))%nat) by lia.
  destruct (lookup_lt_is_Some_2 _ _ Hlt) as [x Hx].
  rewrite (list_lookup_total_correct _ _ _ Hx).
  eapply Forall_lookup_1; eauto.
Qed.

(** ** What the executors leave alone *)

Lemma executeDataProcessing_returns e i : fst (executeDataProcessing e i) = true.
Proof. unfold executeDataProcessing. by destruct (alu _ _ _ _). Qed.

Lemma executeDataProcessing_count e i :
  instructionCount (snd (executeDataProcessing e i)) = instructionCount e.
Proof.
  unfold executeDataProcessing. destruct (alu _ _ _ _) as [result carry].
  repeat case_match; reflexivity.
Qed.

Lemma executeBranch_count e i :
  instructionCount (snd (executeBranch e i)) = instructionCount e.
Proof. unfold executeBranch. repeat case_match; reflexivity. Qed.

Lemma executeLoadStore_count e i r e' :
  executeLoadStore e i = Ok (r, e') → instructionCount e' = instructionCount e.
Proof.
  unfold executeLoadStore. intros H.
  repeat case_match; simplify_eq; reflexivity.
Qed.

Lemma executeLoadStore_leaves_buffer e i :
  executeLoadStore e i = OutOfBuffer →
  Z.of_nat (length (buffer e)) < ls_address e i + ls_width i.
Proof.
  unfold executeLoadStore. intros H.
  repeat case_match; simplify_eq. lia.
Qed.

Lemma executeLoadStore_terminates e i : executeLoadStore e i ≠ Diverges.
Proof. unfold executeLoadStore. repeat case_match; discriminate. Qed.

(** ** The instruction counter *)

(** C5.  On an engine without memory [executeInstruction] returns [false]
    and changes nothing, the counter included.  On an initialized engine
    every call that returns, with [true] or with [false], has added one to
    the 64-bit counter (one exactly as long as the counter is below
    2^64 - 1, where the addition wraps); the only calls without a return
    value are loads and stores whose access leaves the buffer. *)
Theorem instruction_count_step (e : Engine) (instruction : Z) :
  (memory e = None → executeInstruction e instruction = Ok (false, e))
  ∧ (initialized e →
     match executeInstruction e instruction with
     | Ok (_, e') =>
         instructionCount e' = wrap64 (instructionCount e + 1)
         ∧ (0 ≤ instructionCount e < 2 ^ 64 - 1 →
            instructionCount e' = instructionCount e + 1)
     | OutOfBuffer =>
         Z.of_nat (length (buffer e))
         < ls_address e instruction + ls_width instruction
     | Diverges => False
     end).
Proof.
  split.
  - intros H. unfold executeInstruction. by rewrite H.
  - intros Hinit. unfold executeInstruction.
    destruct (memory e) as [buf|] eqn:Hmem; [|by destruct Hinit].
    set (e1 := set_instructionCount e _).
    assert (Hcount : ∀ e', instructionCount e' = instructionCount e1 →
      instructionCount e' = wrap64 (instructionCount e + 1)
      ∧ (0 ≤ instructionCount e < 2 ^ 64 - 1 →
         instructionCount e' = instructionCount e + 1)).
    { intros e' ->. split; [reflexivity|]. intros H. by apply wrap64_succ. }
    destruct (negb (checkCondition e1 _)); [by apply Hcount|].
    destruct (_ && _).
    { pose proof (executeDataProcessing_count e1 instruction) as H.
      destruct (executeDataProcessing e1 instruction). by apply Hcount. }
    destruct (_ =? 2).
    { pose proof (executeBranch_count e1 instruction) as H.
      destruct (executeBranch e1 instruction). by apply Hcount. }
    destruct (is_load_store instruction); [|by apply Hcount].
    destruct (executeLoadStore e1 instruction) as [[r e']| |] eqn:Hls.
    + apply Hcount. eapply executeLoadStore_count, Hls.
    + apply (executeLoadStore_leaves_buffer e1 instruction Hls).
    + by apply executeLoadStore_terminates in Hls.
Qed.

(** Before [init] the call fails and the counter stays; after it the
    illegal word 0xEC000000 fails and the counter goes from 0 to 1. *)
Lemma instruction_count_step_example :
  executeInstruction ARMEmulatorCore 0xEC000000 = Ok (false, ARMEmulatorCore)
  ∧ ∃ e', executeInstruction engine16 0xEC000000 = Ok (false, e')
          ∧ instructionCount e' = 1.
Proof.
  set (e := engine16).
  split.
  - by apply (instruction_count_step ARMEmulatorCore 0xEC000000).
  - destruct (instruction_count_step e 0xEC000000) as [_ Hstep].
    specialize (Hstep ltac:(discriminate)).
    assert (Hrun : ∃ e', executeInstruction e 0xEC000000 = Ok (false, e'))
      by (eexists; vm_compute; reflexivity).
    destruct Hrun as [e' Hrun]. rewrite Hrun in Hstep.
    destruct Hstep as [_ Hstep]. exists e'. split; [exact Hrun|].
    rewrite Hstep; [reflexivity|]. vm_compute. split; congruence.
Defined.

(** ** Condition codes gate everything else *)

Lemma checkCondition_count e n c :
  checkCondition (set_instructionCount e n) c = checkCondition e c.
Proof. reflexivity. Qed.

(** C4.  A word whose condition fails against the CPSR is skipped: the call
    returns [true], the counter goes up by one, and the registers R0-R15,
    the CPSR, the pc/sp/lr shadows and the memory are as before. *)
Theorem condition_failed_skips (e : Engine) (instruction : Z) :
  initialized e →
  checkCondition e (field_cond instruction) = false →
  ∃ e', executeInstruction e instruction = Ok (true, e')
        ∧ instructionCount e' = wrap64 (instructionCount e + 1)
        ∧ (0 ≤ instructionCount e < 2 ^ 64 - 1 →
           instructionCount e' = instructionCount e + 1)
        ∧ registers e' = registers e
        ∧ pc e' = pc e ∧ sp e' = sp e ∧ lr e' = lr e
        ∧ memory e' = memory e
        ∧ memorySize e' = memorySize e
        ∧ memoryCapacity e' = memoryCapacity e
        ∧ isRunning e' = isRunning e.
Proof.
  intros Hinit Hcond. unfold executeInstruction.
  destruct (memory e) as [buf|] eqn:Hmem; [|by destruct Hinit].
  rewrite checkCondition_count, Hcond. simpl.
  eexists. split; [reflexivity|]. simpl. rewrite Hmem.
  repeat split. intros H. by apply wrap64_succ.
Qed.

(** Scenario 3: MOVEQ R1, #15 (0x03A0100F) with Z clear. *)
Lemma condition_failed_skips_example :
  ∃ e', executeInstruction engine16 0x03A0100F = Ok (true, e')
        ∧ instructionCount e' = 1 ∧ registers e' = registers engine16.
Proof.
  set (e := engine16).
  destruct (condition_failed_skips e 0x03A0100F)
    as (e' & Hrun & Hcount & _ & Hregs & _); [discriminate|reflexivity|].
  exists e'. split; [exact Hrun|]. split; [|exact Hregs].
  rewrite Hcount. reflexivity.
Defined.

(** ** Illegal words *)

(** The claim C3 as written fails: on a freshly initialized engine (CPSR 0,
    so Z clear) the word 0x0C000000 has opcode bits 0b11 and condition EQ;
    it is skipped and the call returns [true]. *)
Lemma illegal_word_skipped_returns_true :
  initialized engine16
  ∧ field_opcode 0x0C000000 = 0x3
  ∧ ∃ e', executeInstruction engine16 0x0C000000 = Ok (true, e').
Proof.
  split; [discriminate|]. split; [reflexivity|].
  eexists. vm_compute. reflexivity.
Qed.

(** C3, amended.  A word with opcode bits 0b11 fails exactly when its
    condition holds against the CPSR: then the call returns [false] (and
    only the counter has changed); when the condition does not hold the
    word is skipped and the call returns [true]. *)
Theorem illegal_word_fails_when_condition_holds
  (e : Engine) (instruction : Z) :
  initialized e →
  field_opcode instruction = 0x3 →
  ∃ e', executeInstruction e instruction
        = Ok (negb (checkCondition e (field_cond instruction)), e')
        ∧ registers e' = registers e ∧ memory e' = memory e
        ∧ pc e' = pc e ∧ sp e' = sp e ∧ lr e' = lr e.
Proof.
  intros Hinit Hop. unfold executeInstruction.
  destruct (memory e) as [buf|] eqn:Hmem; [|by destruct Hinit].
  unfold is_load_store. rewrite checkCondition_count, Hop.
  destruct (checkCondition e _); simpl; eexists; (split; [reflexivity|]);
    simpl; by rewrite Hmem.
Qed.

(** The illegal word 0xEC000000 (condition AL) fails. *)
Lemma illegal_word_fails_example :
  ∃ e', executeInstruction engine16 0xEC000000 = Ok (false, e').
Proof.
  set (e := engine16).
  destruct (illegal_word_fails_when_condition_holds e 0xEC000000)
    as (e' & Hrun & _); [discriminate|reflexivity|].
  exists e'. exact Hrun.
Defined.

(** ** Branch: the new pc and the link *)

Lemma testbit_above x n : 0 ≤ n → 0 ≤ x < 2 ^ n → Z.testbit x n = false.
Proof.
  intros Hn Hx. pose proof (Z.testbit_spec' x n Hn) as H.
  rewrite Z.div_small in H by lia. by destruct (Z.testbit x n).
Qed.

Lemma land_pow2 x n :
  0 ≤ n → Z.land x (2 ^ n) = if Z.testbit x n then 2 ^ n else 0.
Proof.
  intros Hn. apply Z.bits_inj'. intros m Hm.
  rewrite Z.land_spec, Z.pow2_bits_eqb by lia.
  destruct (Z.eqb_spec n m) as [->|Hne].
  - rewrite andb_true_r. destruct (Z.testbit x m) eqn:Hx.
    + by rewrite Z.pow2_bits_true.
    + by rewrite Z.bits_0.
  - rewrite andb_false_r. destruct (Z.testbit x n).
    + by rewrite Z.pow2_bits_false.
    + by rewrite Z.bits_0.
Qed.

Lemma testbit_25_of_26 x : 0 ≤ x < 2 ^ 26 → Z.testbit x 25 = negb (x <? 2 ^ 25).
Proof.
  intros Hx. pose proof (Z.testbit_spec' x 25 ltac:(lia)) as H.
  destruct (Z.ltb_spec x (2 ^ 25)); cbn [negb].
  - apply testbit_above; lia.
  - assert (Hq : x / 2 ^ 25 = 1).
    { symmetry. apply (Z.div_unique x (2 ^ 25) 1 (x - 2 ^ 25)); lia. }
    rewrite Hq in H. by destruct (Z.testbit x 25).
Qed.

(** Or-ing the six top bits into a 26-bit value adds them. *)
Lemma lor_top_bits x : 0 ≤ x < 2 ^ 26 → Z.lor x 0xFC000000 = x + 0xFC000000.
Proof.
  intros Hx.
  assert (Hland : Z.land x 0xFC000000 = 0).
  { apply Z.bits_inj'. intros m Hm. rewrite Z.land_spec, Z.bits_0.
    destruct (Z.lt_ge_cases m 26) as [Hlt|Hge].
    - change 0xFC000000 with (Z.shiftl 63 26).
      rewrite (Z.shiftl_spec_low 63 26 m Hlt). apply andb_false_r.
    - rewrite testbit_above; [done|lia|].
      split; [lia|]. apply Z.lt_le_trans with (2 ^ 26); [lia|].
      apply Z.pow_le_mono_r; lia. }
  rewrite <- (Z.lxor_lor _ _ Hland). symmetry. by apply Z.add_nocarry_lxor.
Qed.

(** The offset that [executeBranch] adds is the sign-extended [imm24 << 2],
    modulo 2^32. *)
Lemma branch_offset_sign_extend instruction p :
  wrap32 (p + branch_offset instruction)
  = wrap32 (p + sign_extend_26 (Z.shiftl (Z.land instruction 0xFFFFFF) 2)).
Proof.
  unfold branch_offset, sign_extend_26.
  pose proof (land_ones_range instruction 24 ltac:(lia)) as Himm.
  change (Z.ones 24) with 0xFFFFFF in Himm.
  set (imm := Z.land instruction 0xFFFFFF) in *.
  rewrite Z.shiftl_mul_pow2 by lia.
  assert (Hx : 0 ≤ imm * 2 ^ 2 < 2 ^ 26) by lia.
  set (x := imm * 2 ^ 2) in *.
  rewrite (wrap32_id x) by (unfold word32; lia).
  change 0x2000000 with (2 ^ 25).
  rewrite land_pow2, testbit_25_of_26 by lia.
  destruct (x <? 2 ^ 25); simpl; [reflexivity|].
  rewrite lor_top_bits by lia. unfold wrap32.
  replace (p + (x + 0xFC000000)) with (p + (x - 2 ^ 26) + 1 * 2 ^ 32) by lia.
  apply Z_mod_plus_full.
Qed.

(** C6.  A branch whose condition holds sets the pc shadow and R15 to
    pc + 8 + sign_extend_26(imm24 << 2) modulo 2^32; with the link bit it
    sets the lr shadow and R14 to pc + 4 (modulo 2^32), and without it it
    leaves both alone. *)
Theorem branch_sets_pc_and_lr (e : Engine) (instruction : Z) :
  initialized e →
  registers_ok e →
  field_opcode instruction = 0x2 →
  checkCondition e (field_cond instruction) = true →
  ∃ e', executeInstruction e instruction = Ok (true, e')
        ∧ pc e' = wrap32 (pc e + 8
                          + sign_extend_26
                              (Z.shiftl (Z.land instruction 0xFFFFFF) 2))
        ∧ reg e' 15 = pc e'
        ∧ (if bit instruction 24
           then lr e' = wrap32 (pc e + 4) ∧ reg e' 14 = lr e'
           else lr e' = lr e ∧ reg e' 14 = reg e 14).
Proof.
  intros Hinit [Hlen _]%registers_ok_spec Hop Hcond. unfold executeInstruction.
  destruct (memory e) as [buf|] eqn:Hmem; [|by destruct Hinit].
  rewrite checkCondition_count, Hcond, Hop. cbn [negb andb Z.eqb Pos.eqb].
  eexists. split; [reflexivity|].
  unfold executeBranch. rewrite <- branch_offset_sign_extend.
  destruct (bit instruction 24).
  - split; [reflexivity|]. split; [by rewrite reg_write_reg_eq by reg_len|].
    split; [reflexivity|].
    rewrite reg_write_reg_ne by reg_ne. autorewrite with engine_frame.
    by rewrite reg_write_reg_eq by reg_len.
  - split; [reflexivity|]. split; [by rewrite reg_write_reg_eq by reg_len|].
    split; [reflexivity|]. rewrite reg_write_reg_ne by reg_ne.
    by autorewrite with engine_frame.
Qed.

(** Scenario 4: with PC = 0x100, BL +0 (0xEB000000) gives LR = 0x104 and
    PC = 0x108, in the shadows and in R14 and R15. *)
Lemma branch_with_link_scenario :
  ∃ e', executeInstruction (setPC engine16 0x100) 0xEB000000 = Ok (true, e')
        ∧ lr e' = 0x104 ∧ pc e' = 0x108
        ∧ reg e' 14 = 0x104 ∧ reg e' 15 = 0x108.
Proof.
  set (e := setPC engine16 0x100).
  destruct (branch_sets_pc_and_lr e 0xEB000000) as (e' & Hrun & Hpc & H15 & Hlr).
  - discriminate.
  - reflexivity.
  - reflexivity.
  - reflexivity.
  - exists e'. change (bit 0xEB000000 24) with true in Hlr.
    destruct Hlr as [Hlr H14]. rewrite H14, H15, Hlr, Hpc.
    split; [exact Hrun|]. repeat split.
Defined.

(** ** The barrel shifter *)

Lemma shl32_0 x : word32 x → shl32 x 0 = x.
Proof.
  intros Hx. unfold shl32. change (0 mod 32) with 0.
  rewrite Z.shiftl_0_r. by apply wrap32_id.
Qed.

Lemma shr32_0 x : shr32 x 0 = x.
Proof. unfold shr32. change (0 mod 32) with 0. apply Z.shiftr_0_r. Qed.

Lemma wrap32_to_int32 x : word32 x → wrap32 (to_int32 x) = x.
Proof.
  intros Hx. unfold to_int32. destruct (x <? 2 ^ 31).
  - by apply wrap32_id.
  - unfold wrap32. replace (x - 2 ^ 32) with (x + (-1) * 2 ^ 32) by lia.
    rewrite Z_mod_plus_full. apply Z.mod_small. exact Hx.
Qed.

Lemma sar32_0 x : word32 x → sar32 x 0 = x.
Proof.
  intros Hx. unfold sar32. change (0 mod 32) with 0.
  rewrite Z.shiftr_0_r. by apply wrap32_to_int32.
Qed.

(** A rotation by 0 shifts left by 32, which the target takes as 0. *)
Lemma shl32_32 x : word32 x → shl32 x (wrap32 (32 - 0)) = x.
Proof.
  intros Hx. change (wrap32 (32 - 0)) with 32. unfold shl32.
  change (32 mod 32) with 0. rewrite Z.shiftl_0_r. by apply wrap32_id.
Qed.

(** Read the other way, with a left shift by 32 leaving no bit, the
    rotation by 0 is the identity as well. *)
Lemma ror_0_shift_out x :
  word32 x → Z.lor (shr32 x 0) (wrap32 (Z.shiftl x 32)) = x.
Proof.
  intros Hx. rewrite shr32_0, Z.shiftl_mul_pow2 by lia.
  unfold wrap32. rewrite Z_mod_mult. apply Z.lor_0_r.
Qed.

Lemma barrelShift_0 shiftType x : word32 x → barrelShift shiftType x 0 = x.
Proof.
  intros Hx. unfold barrelShift.
  repeat case_match; try reflexivity;
    rewrite ?shr32_0, ?shl32_32, ?shl32_0, ?sar32_0 by done;
    try reflexivity.
  apply Z.lor_diag.
Qed.

(** C7.  In the register form (bit 25 clear) a shift amount of 0, taken from
    bits[11:7] or from R[Rs] & 0xFF, makes the second operand R[Rm] itself,
    whatever the shift type in bits[6:5]: LSL, LSR, ASR or ROR. *)
Theorem shift_by_zero_is_identity (e : Engine) (instruction : Z) :
  registers_ok e →
  bit instruction 25 = false →
  shiftAmount e instruction = 0 →
  operand2 e instruction = reg e (field_Rm instruction).
Proof.
  intros Hregs Hform Hamount. unfold operand2. rewrite Hform, Hamount.
  apply barrelShift_0, reg_word32; [done|].
  pose proof (field_Rm_range instruction). lia.
Qed.

(** The amount 0 from either source and for each shift type, on an
    initialized engine with R1 = 0x80000001, R2 = 0 and Rm = R1:
    0xE1A00011 (LSL, amount from bits[11:7]) and 0xE1A00261 (ROR, amount
    from R2). *)
Lemma shift_by_zero_example :
  operand2 (engine16_R1 0x80000001) 0xE1A00011 = 0x80000001
  ∧ operand2 (engine16_R1 0x80000001) 0xE1A00261 = 0x80000001.
Proof.
  set (e := engine16_R1 0x80000001).
  split.
  - apply (shift_by_zero_is_identity e 0xE1A00011); reflexivity.
  - apply (shift_by_zero_is_identity e 0xE1A00261); reflexivity.
Defined.

(** ** Data processing and the CPSR *)

Lemma one_bit_cases x : Z.land x 1 = 0 ∨ Z.land x 1 = 1.
Proof.
  pose proof (land_ones_range x 1 ltac:(lia)) as H.
  change (Z.ones 1) with 1 in H. lia.
Qed.

(** The flag update keeps bits 0..27 and leaves bit 28 clear. *)
Lemma new_cpsr_low_bits old result carry :
  Z.land (new_cpsr old result carry) 0x0FFFFFFF = Z.land old 0x0FFFFFFF.
Proof.
  unfold new_cpsr.
  destruct (one_bit_cases (Z.shiftr result 31)) as [-> | ->];
    destruct (result =? 0); destruct carry;
    rewrite !Z.land_lor_distr_l, <- Z.land_assoc;
    change (Z.land 0x0FFFFFFF 0x0FFFFFFF) with 0x0FFFFFFF;
    cbn [Z.shiftl Z.land Pos.iter Pos.land Pos.Nsucc_double Pos.Ndouble Z.of_N];
    by rewrite !Z.lor_0_r.
Qed.

Lemma new_cpsr_V old result carry : bit (new_cpsr old result carry) 28 = false.
Proof.
  unfold new_cpsr, bit.
  destruct (one_bit_cases (Z.shiftr result 31)) as [-> | ->];
    destruct (result =? 0); destruct carry;
    rewrite !Z.shiftr_lor, Z.shiftr_land, !Z.land_lor_distr_l, <- Z.land_assoc;
    change (Z.land (Z.shiftr 0x0FFFFFFF 28) 1) with 0;
    rewrite Z.land_0_r; reflexivity.
Qed.

Lemma updates_flags_Rd_or_op instruction :
  updates_flags instruction = true →
  field_Rd instruction ≠ 15 ∨ 0x8 ≤ field_op instruction.
Proof. unfold updates_flags. intros H. lia. Qed.

(** The CPSR after [executeDataProcessing]. *)
Lemma executeDataProcessing_cpsr e instruction :
  registers_ok e →
  ∃ result carry,
    cpsr (snd (executeDataProcessing e instruction))
    = if updates_flags instruction then new_cpsr (cpsr e) result carry
      else cpsr e.
Proof.
  intros [Hlen _]%registers_ok_spec. unfold executeDataProcessing.
  destruct (alu _ _ _ _) as [result carry]. exists result, carry.
  pose proof (field_Rd_range instruction) as HRd.
  set (e1 := if _ || _ then _ else e).
  assert (H1 : cpsr e1 = cpsr e ∧ length (registers e1) = 17%nat).
  { subst e1. destruct (_ || _); [|done].
    destruct (_ =? 15); [done|]. unfold cpsr. split.
    - by rewrite reg_write_reg_ne by lia.
    - cbn [registers write_reg set_registers]. by rewrite length_insert. }
  destruct H1 as [Hcpsr Hlen1]. cbn [snd].
  destruct (updates_flags instruction); [|done].
  unfold cpsr at 1. rewrite reg_write_reg_eq by lia. by rewrite Hcpsr.
Qed.

(** The claim C2 as written fails: with V set in the CPSR (0x10000000),
    CMP R0, R0 (0xE1500000) on R0 = 0 leaves CPSR = 0x60000000, so bit 28
    went from 1 to 0. *)
Lemma cmp_clears_V_flag :
  field_opcode 0xE1500000 = 0x0 ∧ bit 0xE1500000 25 = false
  ∧ field_op 0xE1500000 = 0xA
  ∧ bit (cpsr (engine16_CPSR 0x10000000)) 28 = true
  ∧ ∃ e', executeInstruction (engine16_CPSR 0x10000000) 0xE1500000
          = Ok (true, e')
          ∧ cpsr e' = 0x60000000
          ∧ bit (cpsr e') 28 = false.
Proof.
  repeat (split; [reflexivity|]). eexists.
  split; [vm_compute; reflexivity|]. split; reflexivity.
Qed.

(** C2, amended.  A data-processing word on an initialized engine returns
    [true] and preserves bits 0..27 of the CPSR.  Bit 28 (V) is cleared
    whenever the flags are updated, that is when the condition holds and
    [S && (Rd != 15 || op >= 8)] with S forced for op 0x8..0xB; otherwise
    the whole CPSR, bit 28 included, is as before. *)
Theorem data_processing_cpsr_frame (e : Engine) (instruction : Z) :
  initialized e →
  registers_ok e →
  field_opcode instruction = 0x0 →
  bit instruction 25 = false →
  ∃ e', executeInstruction e instruction = Ok (true, e')
        ∧ Z.land (cpsr e') 0x0FFFFFFF = Z.land (cpsr e) 0x0FFFFFFF
        ∧ if checkCondition e (field_cond instruction)
             && updates_flags instruction
          then bit (cpsr e') 28 = false
          else cpsr e' = cpsr e.
Proof.
  intros Hinit Hregs Hop Hform. unfold executeInstruction.
  destruct (memory e) as [buf|] eqn:Hmem; [|by destruct Hinit].
  rewrite checkCondition_count, Hop, Hform.
  destruct (checkCondition e _); cbn [negb andb Z.eqb].
  - set (e1 := set_instructionCount e _).
    destruct (executeDataProcessing_cpsr e1 instruction Hregs)
      as (result & carry & Hcpsr).
    pose proof (executeDataProcessing_returns e1 instruction) as Hret.
    destruct (executeDataProcessing e1 instruction) as [r e'].
    cbn [fst snd] in *. subst r. exists e'. split; [reflexivity|].
    rewrite Hcpsr. change (cpsr e1) with (cpsr e).
    destruct (updates_flags instruction).
    + split; [apply new_cpsr_low_bits|apply new_cpsr_V].
    + done.
  - eexists. split; [reflexivity|]. done.
Qed.

(** MOV R2, R1 with the S bit (0xE1B02001) updates the flags, and without
    it (0xE1A02001) leaves the CPSR alone. *)
Lemma data_processing_cpsr_example :
  (∃ e', executeInstruction (engine16_CPSR 0x1000001F) 0xE1B02001
         = Ok (true, e')
         ∧ Z.land (cpsr e') 0x0FFFFFFF = 0x1F ∧ bit (cpsr e') 28 = false)
  ∧ (∃ e', executeInstruction (engine16_CPSR 0x1000001F) 0xE1A02001
           = Ok (true, e')
           ∧ cpsr e' = 0x1000001F).
Proof.
  set (e := engine16_CPSR 0x1000001F).
  split.
  - destruct (data_processing_cpsr_frame e 0xE1B02001)
      as (e' & Hrun & Hlow & HV); try reflexivity; [discriminate|].
    exists e'. split; [exact Hrun|]. split; [exact Hlow|exact HV].
  - destruct (data_processing_cpsr_frame e 0xE1A02001)
      as (e' & Hrun & Hlow & HV); try reflexivity; [discriminate|].
    exists e'. split; [exact Hrun|exact HV].
Defined.

(** ** The shadows of R13, R14 and R15 *)

(** [setPC] keeps R15 and the pc shadow together, as [executeBranch]
    does. *)
Lemma setPC_consistent e value :
  registers_ok e → shadows_consistent e → shadows_consistent (setPC e value).
Proof.
  intros [Hlen _]%registers_ok_spec (H13 & H14 & H15).
  unfold shadows_consistent, setPC.
  rewrite !reg_write_reg_ne by reg_ne. rewrite reg_write_reg_eq by reg_len.
  autorewrite with engine_frame. done.
Qed.

(** C1 does not hold of the code.  From an engine whose shadows agree with
    the registers:
    - MOV PC, R1 (0xE1A0F001) with R1 = 4 sets the pc shadow to 4 and
      leaves R15 at 0;
    - MOV SP, R1 (0xE1A0D001) sets R13 to 4 and leaves the sp shadow at 12;
    - the post-indexed byte load 0xE6DD0004 (base R13, offset 4) sets R13
      to 16 and leaves the sp shadow at 12;
    - [setRegister] on R14 sets R14 and leaves the lr shadow at 0. *)
Theorem shadows_diverge_from_registers :
  shadows_consistent (engine16_R1 4)
  ∧ (∃ e', executeInstruction (engine16_R1 4) 0xE1A0F001 = Ok (true, e')
           ∧ pc e' = 4 ∧ reg e' 15 = 0)
  ∧ (∃ e', executeInstruction (engine16_R1 4) 0xE1A0D001 = Ok (true, e')
           ∧ reg e' 13 = 4 ∧ sp e' = 12)
  ∧ (∃ e', executeInstruction (engine16_R1 4) 0xE6DD0004 = Ok (true, e')
           ∧ reg e' 13 = 16 ∧ sp e' = 12)
  ∧ (reg (setRegister (engine16_R1 4) 14 5) 14 = 5
     ∧ lr (setRegister (engine16_R1 4) 14 5) = 0).
Proof.
  split; [by repeat split|].
  split; [eexists; split; [vm_compute; reflexivity|by split]|].
  split; [eexists; split; [vm_compute; reflexivity|by split]|].
  split; [eexists; split; [vm_compute; reflexivity|by split]|].
  by split.
Qed.

(** ** Writing and reading memory *)

Lemma memcpy_to_length buf address data :
  0 ≤ address →
  address + Z.of_nat (length data) ≤ Z.of_nat (length buf) →
  length (memcpy_to buf address data) = length buf.
Proof.
  intros Ha Hfit. unfold memcpy_to.
  rewrite !length_app, length_take, length_drop. lia.
Qed.

Lemma memcpy_from_to buf address data :
  0 ≤ address →
  address + Z.of_nat (length data) ≤ Z.of_nat (length buf) →
  memcpy_from (memcpy_to buf address data) address (Z.of_nat (length data))
  = data.
Proof.
  intros Ha Hfit. unfold memcpy_from, memcpy_to.
  rewrite drop_app_length' by (rewrite length_take; lia).
  rewrite Nat2Z.id. apply take_app_length.
Qed.

(** C8.  When [writeMemory] returns [true], reading the same range back
    returns [true] and the bytes written. *)
Theorem write_then_read (realloc_ok : bool) (e e' : Engine) (address : Z)
  (data : list Z) :
  0 ≤ address →
  writeMemory realloc_ok e address data = Ok (true, e') →
  readMemory e' address (Z.of_nat (length data)) = Ok (Some data).
Proof.
  intros Ha. unfold writeMemory.
  remember (Z.of_nat (length data)) as len eqn:Hlen.
  remember (wrap32 (address + len)) as last eqn:Hlast.
  destruct (memory e) as [buf|]; [|discriminate].
  destruct (if memoryCapacity e <? last then _ else _) as [[ok e1]| |];
    cbn [obind fst snd]; [|discriminate..].
  destruct ok; cbn [negb]; [|discriminate].
  destruct (Z.ltb_spec (Z.of_nat (length (buffer e1))) (address + len))
    as [|Hfit]; [discriminate|].
  set (e2 := set_memory e1 _). intros [= <-].
  assert (Hbuf : ∀ e3, memory e3 = memory e2 →
    (memorySize e3 <? last) = false →
    readMemory e3 address len = Ok (Some data)).
  { intros e3 Hmem Hsize. unfold readMemory, readMemory_rejects, buffer.
    rewrite Hmem, <- Hlast. cbn [memory e2 set_memory default]. unfold id.
    rewrite Hsize, memcpy_to_length by lia.
    destruct (Z.ltb_spec (Z.of_nat (length (buffer e1))) (address + len));
      [lia|].
    subst len. by rewrite memcpy_from_to. }
  destruct (memorySize e1 <? last) eqn:Hsize.
  - apply Hbuf; [reflexivity|]. cbn [memorySize set_memorySize]. lia.
  - apply Hbuf; [reflexivity|exact Hsize].
Qed.

(** A write of five bytes that ends beyond the capacity 16: the buffer
    grows and the bytes read back. *)
Lemma write_then_read_example :
  ∃ e', writeMemory true engine16 14 [1; 2; 3; 4; 5] = Ok (true, e')
        ∧ readMemory e' 14 5 = Ok (Some [1; 2; 3; 4; 5]).
Proof.
  set (e := engine16).
  eexists. split; [vm_compute; reflexivity|].
  apply (write_then_read true e _ 14 [1; 2; 3; 4; 5]); [lia|].
  vm_compute; reflexivity.
Defined.

(** ** The buffer, its capacity and the logical size *)

Lemma length_zeros n : 0 ≤ n → Z.of_nat (length (zeros n)) = n.
Proof. intros Hn. unfold zeros. rewrite length_replicate. lia. Qed.

Lemma default_capacity_range : 0 < default_capacity < 2 ^ 32.
Proof. unfold default_capacity. lia. Qed.

Lemma init_capacity_range n :
  0 ≤ n < 2 ^ 32 →
  0 < (if 0 <? n then n else default_capacity) < 2 ^ 32.
Proof.
  intros Hn. pose proof default_capacity_range.
  destruct (Z.ltb_spec 0 n); lia.
Qed.

Lemma init_memory_ok calloc_ok e n e' :
  0 ≤ n < 2 ^ 32 → init calloc_ok e n = (true, e') →
  initialized e' ∧ memory_ok e'.
Proof.
  intros Hn. unfold init.
  pose proof (init_capacity_range n Hn) as Hcap.
  destruct (if 0 <? n then n else default_capacity) as [|capacity|] eqn:E;
    [lia| |lia].
  destruct calloc_ok; intros [= <-]. split; [discriminate|].
  unfold memory_ok, buffer. cbn [memory memorySize memoryCapacity default].
  unfold id. rewrite length_zeros by lia. lia.
Qed.

Lemma memcpy_from_zeros capacity a len :
  0 ≤ a → 0 ≤ len → a + len ≤ capacity →
  memcpy_from (zeros capacity) a len = zeros len.
Proof.
  intros Ha Hlen Hfit. unfold memcpy_from, zeros.
  rewrite drop_replicate, take_replicate. f_equal. lia.
Qed.

(** Within the logical size of a well-formed buffer [readMemory] returns
    the bytes. *)
Lemma readMemory_in_range e a len :
  initialized e → memory_ok e →
  0 ≤ a → 0 ≤ len → a + len ≤ memorySize e →
  readMemory e a len = Ok (Some (memcpy_from (buffer e) a len)).
Proof.
  intros Hinit (Hlen & Hsize & Hcap) Ha Hl Hfit.
  unfold readMemory, readMemory_rejects.
  destruct (memory e) eqn:Hmem; [|by destruct Hinit].
  rewrite wrap32_id by (unfold word32; lia).
  destruct (Z.ltb_spec (memorySize e) (a + len)); [lia|].
  destruct (Z.ltb_spec (Z.of_nat (length (buffer e))) (a + len)); [lia|done].
Qed.

(** [setRegister] touches neither the buffer nor its sizes. *)
Lemma setRegister_memory e r v :
  memory (setRegister e r v) = memory e
  ∧ memorySize (setRegister e r v) = memorySize e
  ∧ memoryCapacity (setRegister e r v) = memoryCapacity e.
Proof. unfold setRegister. by repeat case_match. Qed.

Lemma setRegisters_memory sets e :
  memory (setRegisters e sets) = memory e
  ∧ memorySize (setRegisters e sets) = memorySize e
  ∧ memoryCapacity (setRegisters e sets) = memoryCapacity e.
Proof.
  revert e. induction sets as [|[r v] sets IH]; intros e; [done|].
  change (setRegisters e ((r, v) :: sets))
    with (setRegisters (setRegister e r v) sets).
  destruct (IH (setRegister e r v)) as (-> & -> & ->).
  apply setRegister_memory.
Qed.

(** A load or store whose condition holds and whose access lies within the
    logical size of a well-formed buffer returns [true]. *)
Lemma load_store_in_range e instruction :
  initialized e → memory_ok e →
  is_load_store instruction = true →
  checkCondition e (field_cond instruction) = true →
  0 ≤ ls_address e instruction →
  ls_address e instruction + ls_width instruction ≤ memorySize e →
  ∃ e', executeInstruction e instruction = Ok (true, e').
Proof.
  intros Hinit (Hlen & Hsize & Hcap) Hls Hcond Ha Hfit.
  unfold executeInstruction.
  destruct (memory e) as [buf|] eqn:Hmem; [|by destruct Hinit].
  rewrite checkCondition_count, Hcond, Hls. cbn [negb].
  assert (Hdp : (field_opcode instruction =? 0) && negb (bit instruction 25)
                = false).
  { unfold is_load_store in Hls. destruct (bit instruction 25); lia. }
  assert (Hbr : (field_opcode instruction =? 2) = false).
  { unfold is_load_store in Hls. lia. }
  rewrite Hdp, Hbr. set (e1 := set_instructionCount e _).
  unfold executeLoadStore, ls_rejects.
  change (memory e1) with (memory e). rewrite Hmem.
  change (ls_address e1 instruction) with (ls_address e instruction).
  change (memorySize e1) with (memorySize e).
  change (buffer e1) with (buffer e).
  assert (Hw : 0 < ls_width instruction).
  { unfold ls_width. by destruct (bit instruction 22). }
  rewrite wrap32_id by (unfold word32; lia).
  destruct (Z.ltb_spec (memorySize e)
              (ls_address e instruction + ls_width instruction)); [lia|].
  destruct (Z.ltb_spec (Z.of_nat (length (buffer e)))
              (ls_address e instruction + ls_width instruction)); [lia|].
  eexists. reflexivity.
Qed.

(** C9.  After a successful [init] the logical size reported by
    [getMemorySize] is the whole capacity: the requested size, or 64 MiB
    when 0 was requested.  So every range below the capacity is readable
    (and reads as zeros), and after any sequence of [setRegister] calls a
    load whose condition holds and whose access lies below the capacity
    returns [true]. *)
Theorem init_exposes_whole_capacity (calloc_ok : bool) (e e' : Engine) (n : Z) :
  0 ≤ n < 2 ^ 32 →
  init calloc_ok e n = (true, e') →
  getMemorySize e' = (if 0 <? n then n else 64 * 1024 * 1024)
  ∧ getMemorySize e' ≠ 0
  ∧ (∀ a len, 0 ≤ a → 0 ≤ len → a + len ≤ getMemorySize e' →
       readMemory e' a len = Ok (Some (zeros len)))
  ∧ (∀ sets instruction,
       let e2 := setRegisters e' sets in
       is_load_store instruction = true →
       bit instruction 20 = true →
       checkCondition e2 (field_cond instruction) = true →
       0 ≤ ls_address e2 instruction →
       ls_address e2 instruction + ls_width instruction ≤ getMemorySize e' →
       ∃ e3, executeInstruction e2 instruction = Ok (true, e3)).
Proof.
  intros Hn Hinit.
  destruct (init_memory_ok _ _ _ _ Hn Hinit) as [Hmem Hok].
  pose proof (init_capacity_range n Hn) as Hcap.
  change (64 * 1024 * 1024) with default_capacity.
  assert (Hsize : getMemorySize e' = (if 0 <? n then n else default_capacity)
                  ∧ buffer e' = zeros (getMemorySize e')).
  { unfold init in Hinit. destruct calloc_ok; [|discriminate].
    injection Hinit as <-. by split. }
  destruct Hsize as [Hsize Hbuf]. rewrite <- Hsize in Hcap.
  split; [exact Hsize|]. split; [lia|]. split.
  - intros a len Ha Hlen Hfit.
    rewrite readMemory_in_range by done.
    rewrite Hbuf. by rewrite memcpy_from_zeros.
  - intros sets instruction e2 Hls _ Hcond Ha Hfit.
    destruct (setRegisters_memory sets e') as (Hm & Hs & Hc).
    apply load_store_in_range; try done.
    + unfold initialized. fold e2 in Hm. by rewrite Hm.
    + destruct Hok as (Hlen & Hrange & Hlt). unfold memory_ok, buffer.
      fold e2 in Hm, Hs, Hc. rewrite Hm, Hs, Hc. done.
    + fold e2 in Hs. rewrite Hs. exact Hfit.
Qed.

(** [init(0)] and [init(16)]; after [init(16)], reading the last byte and
    loading the last word (R1 = 12, LDR R0, [R1, #0] in the encoding the
    executor decodes, 0xE7910000). *)
Lemma init_exposes_whole_capacity_example :
  getMemorySize (snd (init true ARMEmulatorCore 0)) = 67108864
  ∧ getMemorySize engine16 = 16
  ∧ readMemory engine16 15 1 = Ok (Some [0])
  ∧ ∃ e3, executeInstruction
            (setRegisters engine16 [(1, 12)])
            0xE7910000 = Ok (true, e3).
Proof.
  split.
  { destruct (init_exposes_whole_capacity true ARMEmulatorCore
                (snd (init true ARMEmulatorCore 0)) 0) as [Hsize _];
      [lia|reflexivity|exact Hsize]. }
  destruct (init_exposes_whole_capacity true ARMEmulatorCore
              engine16 16)
    as (Hsize & _ & Hread & Hload); [lia|reflexivity|].
  split; [exact Hsize|]. split.
  - apply (Hread 15 1); [lia|lia|]. rewrite Hsize. vm_compute. discriminate.
  - apply (Hload [(1, 12)] 0xE7910000); try reflexivity;
      vm_compute; discriminate.
Defined.

(** ** The range checks wrap *)

Lemma wrap32_overflow x : 2 ^ 32 ≤ x < 2 ^ 33 → wrap32 x = x - 2 ^ 32.
Proof.
  intros Hx. unfold wrap32.
  replace x with (x - 2 ^ 32 + 1 * 2 ^ 32) at 1 by lia.
  rewrite Z_mod_plus_full. apply Z.mod_small. lia.
Qed.

(** C10.  The checks of [readMemory] and of [executeLoadStore] add the
    address and the length modulo 2^32.  When the exact sum reaches 2^32
    and the wrapped sum is within the logical size, the check lets the
    access through although the range does not lie within the logical
    size; the access then leaves the buffer. *)
Theorem range_check_wraps (e : Engine) (address len : Z) :
  initialized e →
  memory_ok e →
  word32 address → word32 len →
  2 ^ 32 ≤ address + len →
  address + len - 2 ^ 32 ≤ memorySize e →
  ¬ (address + len ≤ memorySize e)
  ∧ readMemory_rejects e address len = false
  ∧ readMemory e address len = OutOfBuffer
  ∧ (∀ instruction,
       ls_address e instruction = address → ls_width instruction = len →
       ls_rejects e instruction = false
       ∧ executeLoadStore e instruction = OutOfBuffer).
Proof.
  intros Hinit (Hlen & Hsize & Hcap) Ha Hl Hsum Hfit.
  unfold word32 in Ha, Hl.
  assert (Hwrap : wrap32 (address + len) = address + len - 2 ^ 32)
    by (apply wrap32_overflow; lia).
  assert (Hrej : readMemory_rejects e address len = false).
  { unfold readMemory_rejects.
    destruct (memory e) eqn:Hmem; [|by destruct Hinit]. rewrite Hwrap. lia. }
  split; [lia|]. split; [exact Hrej|]. split.
  - unfold readMemory. rewrite Hrej.
    destruct (Z.ltb_spec (Z.of_nat (length (buffer e))) (address + len));
      [done|lia].
  - intros instruction Haddr Hwidth.
    assert (Hrej' : ls_rejects e instruction = false).
    { unfold ls_rejects.
      destruct (memory e) eqn:Hmem; [|by destruct Hinit].
      rewrite Haddr, Hwidth, Hwrap. lia. }
    split; [exact Hrej'|].
    unfold executeLoadStore. rewrite Hrej', Haddr, Hwidth.
    destruct (Z.ltb_spec (Z.of_nat (length (buffer e))) (address + len));
      [done|lia].
Qed.

(** The two cases named by the claim, on an engine with 16 bytes:
    [readMemory] at 0xFFFFFFFF with length 2, and a word load at
    0xFFFFFFFE (R1 = 0xFFFFFFFE, 0xE7910000). *)
Lemma range_check_wraps_example :
  (readMemory_rejects (engine16_R1 0xFFFFFFFE) 0xFFFFFFFF 2 = false
   ∧ readMemory (engine16_R1 0xFFFFFFFE) 0xFFFFFFFF 2 = OutOfBuffer)
  ∧ (ls_rejects (engine16_R1 0xFFFFFFFE) 0xE7910000 = false
     ∧ executeInstruction (engine16_R1 0xFFFFFFFE) 0xE7910000 = OutOfBuffer).
Proof.
  set (e := engine16_R1 0xFFFFFFFE).
  assert (Hinit : initialized e) by discriminate.
  assert (Hok : memory_ok e) by (repeat split; vm_compute; congruence).
  assert (Hw1 : word32 0xFFFFFFFF) by (unfold word32; lia).
  assert (Hw2 : word32 0xFFFFFFFE) by (unfold word32; lia).
  assert (Hl2 : word32 2) by (unfold word32; lia).
  assert (Hl4 : word32 4) by (unfold word32; lia).
  assert (Hs : memorySize e = 16) by reflexivity.
  split.
  - pose proof (range_check_wraps e 0xFFFFFFFF 2 Hinit Hok Hw1 Hl2
                  ltac:(lia) ltac:(lia)) as (_ & Hrej & Hread & _).
    split; [exact Hrej|exact Hread].
  - pose proof (range_check_wraps e 0xFFFFFFFE 4 Hinit Hok Hw2 Hl4
                  ltac:(lia) ltac:(lia)) as (_ & _ & _ & Hls).
    destruct (Hls 0xE7910000 eq_refl eq_refl) as [Hrej Hrun].
    split; [exact Hrej|]. vm_compute. reflexivity.
Defined.

(** ** The growth loop *)

Lemma wrap32_double_pow c k :
  0 ≤ k → wrap32 (wrap32 (c * 2) * 2 ^ k) = wrap32 (c * 2 ^ (k + 1)).
Proof.
  intros Hk. unfold wrap32. rewrite Z.mul_mod_idemp_l by lia.
  f_equal. rewrite Z.pow_add_r by lia. lia.
Qed.

(** The loop runs out of fuel exactly when every capacity it visits is
    below [size]. *)
Lemma grow_None fuel : ∀ c size,
  word32 c →
  grow fuel c size = None
  ↔ ∀ k, 0 ≤ k ≤ Z.of_nat fuel → wrap32 (c * 2 ^ k) < size.
Proof.
  induction fuel as [|fuel IH]; intros c size Hc; cbn [grow];
    destruct (Z.ltb_spec c size) as [Hlt|Hge].
  - split; [|done]. intros _ k Hk. assert (k = 0) as -> by lia.
    rewrite Z.mul_1_r, wrap32_id; done.
  - split; [done|]. intros H. specialize (H 0 ltac:(lia)).
    rewrite Z.mul_1_r, wrap32_id in H by done. lia.
  - rewrite IH by apply wrap32_word32. split.
    + intros H k Hk. destruct (Z.eq_dec k 0) as [->|Hne].
      * rewrite Z.mul_1_r, wrap32_id; done.
      * specialize (H (k - 1) ltac:(lia)).
        rewrite wrap32_double_pow in H by lia.
        by replace (k - 1 + 1) with k in H by lia.
    + intros H k Hk. rewrite wrap32_double_pow by lia. apply H. lia.
  - split; [done|]. intros H. specialize (H 0 ltac:(lia)).
    rewrite Z.mul_1_r, wrap32_id in H by done. lia.
Qed.

(** After 32 doublings the capacity is 0 and stays 0: a loop that is still
    running then never ends, so [Diverges] in [ensureMemory] is not an
    artefact of the fuel. *)
Lemma grow_out_of_fuel_forever c size :
  word32 c → grow 32 c size = None → ∀ fuel, grow fuel c size = None.
Proof.
  intros Hc H fuel. rewrite grow_None in H by done.
  apply grow_None; [done|]. intros k Hk.
  destruct (Z.le_gt_cases k 32) as [Hle|Hgt]; [apply H; lia|].
  specialize (H 32 ltac:(lia)).
  assert (Hzero : ∀ j, 32 ≤ j → wrap32 (c * 2 ^ j) = 0).
  { intros j Hj. unfold wrap32.
    replace j with (j - 32 + 32) by lia. rewrite Z.pow_add_r by lia.
    rewrite Z.mul_assoc. apply Z_mod_mult. }
  rewrite Hzero in H by lia. rewrite Hzero by lia. exact H.
Qed.

(** When the loop ends, the new capacity is a 32-bit value that holds
    [size]. *)
Lemma grow_Some fuel : ∀ c size n,
  word32 c → grow fuel c size = Some n → word32 n ∧ size ≤ n.
Proof.
  induction fuel as [|fuel IH]; intros c size n Hc; cbn [grow];
    destruct (Z.ltb_spec c size) as [Hlt|Hge]; try discriminate.
  - intros [= <-]. done.
  - apply IH, wrap32_word32.
  - intros [= <-]. done.
Qed.

(** ** The buffer invariant is kept *)

Lemma ensureMemory_memory_ok realloc_ok e size e' :
  memory_ok e → initialized e →
  ensureMemory realloc_ok e size = Ok (true, e') →
  memory_ok e' ∧ initialized e' ∧ size ≤ memoryCapacity e'
  ∧ memorySize e' = memorySize e.
Proof.
  intros (Hlen & Hsize & Hcap) Hinit. unfold ensureMemory.
  destruct (Z.leb_spec size (memoryCapacity e)) as [Hle|Hgt].
  { intros [= <-]. done. }
  destruct (grow 32 _ size) as [newCapacity|] eqn:Hgrow; [|discriminate].
  apply grow_Some in Hgrow as [Hnew Hfit]; [|apply wrap32_word32].
  destruct realloc_ok; [|discriminate]. intros [= <-].
  unfold memory_ok, initialized, buffer at 1.
  cbn [memory memorySize memoryCapacity set_memory set_memoryCapacity default].
  unfold id, word32 in *. rewrite length_app, Nat2Z.inj_add, Hlen.
  rewrite length_zeros by lia. repeat split; try lia. discriminate.
Qed.

Lemma writeMemory_memory_ok realloc_ok e address data e' :
  memory_ok e → 0 ≤ address →
  writeMemory realloc_ok e address data = Ok (true, e') →
  memory_ok e' ∧ initialized e'
  ∧ address + Z.of_nat (length data) ≤ memorySize e'.
Proof.
  intros Hok Ha. unfold writeMemory.
  remember (Z.of_nat (length data)) as len eqn:Hlen.
  remember (wrap32 (address + len)) as last eqn:Hlast.
  destruct (memory e) as [buf|] eqn:Hmem; [|discriminate].
  assert (Hinit : initialized e) by (unfold initialized; congruence).
  assert (Hgrown : ∀ r,
    (if memoryCapacity e <? last then ensureMemory realloc_ok e last
     else Ok (true, e)) = Ok (true, r) →
    memory_ok r ∧ last ≤ memoryCapacity r ∧ memorySize r = memorySize e).
  { intros r. destruct (Z.ltb_spec (memoryCapacity e) last) as [Hsmall|Hbig].
    - intros Hrun%ensureMemory_memory_ok; tauto.
    - intros [= <-]. repeat split; try apply Hok; lia. }
  destruct (if memoryCapacity e <? last then _ else _) as [[ok e1]| |];
    cbn [obind fst snd]; [|discriminate..].
  destruct ok; cbn [negb]; [|discriminate].
  destruct (Hgrown e1 eq_refl) as ((Hlen1 & Hsize1 & Hcap1) & Hfit1 & Hsame).
  destruct (Z.ltb_spec (Z.of_nat (length (buffer e1))) (address + len))
    as [|Hfit]; [discriminate|].
  assert (Hexact : last = address + len).
  { rewrite Hlast. apply wrap32_id. unfold word32. lia. }
  assert (Hlen2 : Z.of_nat (length (memcpy_to (buffer e1) address data))
                  = memoryCapacity e1).
  { rewrite memcpy_to_length by lia. exact Hlen1. }
  cbn [memorySize set_memory].
  destruct (Z.ltb_spec (memorySize e1) last) as [Hlt|Hge]; intros [= <-];
    unfold memory_ok, initialized, buffer;
    cbn [memory memorySize memoryCapacity set_memory set_memorySize default];
    unfold id; (split; [|split; [discriminate|lia]]);
    (split; [exact Hlen2|lia]).
Qed.

Lemma executeLoadStore_memory_ok e instruction r e' :
  memory_ok e → executeLoadStore e instruction = Ok (r, e') → memory_ok e'.
Proof.
  intros Hok. unfold executeLoadStore.
  destruct (ls_rejects e instruction); [by intros [= _ <-]|].
  destruct (_ <? _); [discriminate|]. intros Hrun.
  apply (f_equal (λ o, match o with Ok p => snd p | _ => e end)) in Hrun.
  cbn [snd] in Hrun. subst e'.
  destruct Hok as (Hlen & Hsize & Hcap).
  destruct (bit instruction 24), (bit instruction 20), (bit instruction 22),
    (field_Rd instruction =? 15);
    (split; [|split; [exact Hsize|exact Hcap]]);
    unfold buffer;
    cbn [memory set_memory set_pc write_reg set_registers default];
    unfold id, store32, store8; rewrite ?length_insert; exact Hlen.
Qed.

Lemma memory_ok_same e e' :
  memory e' = memory e → memorySize e' = memorySize e →
  memoryCapacity e' = memoryCapacity e → memory_ok e → memory_ok e'.
Proof. unfold memory_ok, buffer. by intros -> -> ->. Qed.

Lemma executeDataProcessing_memory_ok e instruction :
  memory_ok e → memory_ok (snd (executeDataProcessing e instruction)).
Proof.
  unfold executeDataProcessing. destruct (alu _ _ _ _) as [result carry].
  cbn [snd]. repeat case_match; by apply memory_ok_same.
Qed.

Lemma executeBranch_memory_ok e instruction :
  memory_ok e → memory_ok (snd (executeBranch e instruction)).
Proof.
  unfold executeBranch. cbn [snd].
  repeat case_match; by apply memory_ok_same.
Qed.

(** Every call of [executeInstruction] that returns keeps the buffer
    well-formed. *)
Lemma executeInstruction_memory_ok e instruction r e' :
  memory_ok e → executeInstruction e instruction = Ok (r, e') → memory_ok e'.
Proof.
  intros Hok. unfold executeInstruction.
  destruct (memory e); [|by intros [= _ <-]].
  set (e1 := set_instructionCount e _).
  assert (Hok1 : memory_ok e1) by exact Hok.
  destruct (negb _); [by intros [= _ <-]|].
  destruct (_ && _).
  { pose proof (executeDataProcessing_memory_ok e1 instruction Hok1) as H.
    destruct (executeDataProcessing e1 instruction). by intros [= _ <-]. }
  destruct (_ =? 2).
  { pose proof (executeBranch_memory_ok e1 instruction Hok1) as H.
    destruct (executeBranch e1 instruction). by intros [= _ <-]. }
  destruct (is_load_store instruction); [|by intros [= _ <-]].
  by apply executeLoadStore_memory_ok.
Qed.

Lemma setRegisters_memory_ok e sets :
  memory_ok e → memory_ok (setRegisters e sets).
Proof.
  destruct (setRegisters_memory sets e) as (Hm & Hs & Hc).
  by apply memory_ok_same.
Qed.

(** * Further properties of the engine *)

(** ** Registers through the interface *)

Lemma length_registers_ok e : registers_ok e → length (registers e) = 17%nat.
Proof. by intros [H _]%registers_ok_spec. Qed.

Lemma getRegister_reg e i : 0 ≤ i ≤ 16 → getRegister e i = reg e i.
Proof.
  intros Hi. unfold getRegister. destruct (Z.ltb_spec i 16); [done|].
  by assert (i = 16) as -> by lia.
Qed.

(** X1. [setRegister] and [getRegister]: a register number up to 16 reads
    back the value written and no other register changes; a number above 16
    is ignored by [setRegister] and reads as 0. *)
Theorem getRegister_setRegister (e : Engine) (r value : Z) :
  registers_ok e →
  0 ≤ r →
  (r ≤ 16 → getRegister (setRegister e r value) r = value)
  ∧ (16 < r → setRegister e r value = e ∧ getRegister e r = 0)
  ∧ (∀ r', 0 ≤ r' → r' ≠ r →
       getRegister (setRegister e r value) r' = getRegister e r').
Proof.
  intros Hlen%length_registers_ok Hr.
  assert (Hreg : ∀ r', 0 ≤ r' →
    reg (setRegister e r value) r'
    = if (r <=? 16) && (r =? r') then value else reg e r').
  { intros r' Hr'. unfold setRegister.
    destruct (Z.ltb_spec r 16) as [Hlt|Hge].
    - replace (r <=? 16) with true by lia.
      assert (Hw : reg (write_reg e r value) r'
                   = if r =? r' then value else reg e r').
      { destruct (Z.eqb_spec r r') as [<-|Hne].
        - apply reg_write_reg_eq. lia.
        - apply reg_write_reg_ne. lia. }
      destruct (r =? 13), (r =? 15); autorewrite with engine_frame; exact Hw.
    - destruct (Z.eqb_spec r 16) as [->|Hne].
      + destruct (Z.eqb_spec 16 r') as [<-|Hne']; cbn [andb Z.leb Z.compare
          Pos.compare Pos.compare_cont].
        * apply reg_write_reg_eq. lia.
        * apply reg_write_reg_ne. lia.
      + by replace (r <=? 16) with false by lia. }
  split; [|split].
  - intros Hle. unfold getRegister.
    assert (Hsame : reg (setRegister e r value) r = value).
    { rewrite Hreg by lia. replace (r <=? 16) with true by lia.
      by rewrite Z.eqb_refl. }
    destruct (Z.ltb_spec r 16); [done|].
    assert (r = 16) as -> by lia. exact Hsame.
  - intros Hgt. unfold setRegister, getRegister.
    replace (r <? 16) with false by lia. by replace (r =? 16) with false by lia.
  - intros r' Hr' Hne. unfold getRegister.
    assert (Hother : reg (setRegister e r value) r' = reg e r').
    { rewrite Hreg by lia. replace (r =? r') with false by lia.
      by rewrite andb_false_r. }
    destruct (Z.ltb_spec r' 16); [done|].
    destruct (Z.eqb_spec r' 16) as [->|]; done.
Qed.

Lemma getRegister_setRegister_example :
  getRegister (setRegister engine16 3 0xDEADBEEF) 3 = 0xDEADBEEF
  ∧ getRegister (setRegister engine16 3 0xDEADBEEF) 13 = 12
  ∧ getRegister (setRegister engine16 17 0xDEADBEEF) 17 = 0.
Proof.
  destruct (getRegister_setRegister engine16 3 0xDEADBEEF eq_refl ltac:(lia))
    as (Hsame & _ & Hother).
  split; [apply Hsame; lia|]. split.
  - rewrite Hother by lia. reflexivity.
  - destruct (getRegister_setRegister engine16 17 0xDEADBEEF eq_refl
                ltac:(lia)) as (_ & Hout & _).
    destruct (Hout ltac:(lia)) as [-> Hzero]. exact Hzero.
Defined.

(** X2. [setPC] is [setRegister] on R15: the two leave the same engine, in
    which [getPC] and register 15 both give the value. *)
Theorem setPC_is_setRegister_15 (e : Engine) (value : Z) :
  registers_ok e →
  setPC e value = setRegister e 15 value
  ∧ getPC (setPC e value) = value
  ∧ getRegister (setPC e value) 15 = value.
Proof.
  intros Hlen%length_registers_ok. split; [reflexivity|]. split; [reflexivity|].
  unfold getRegister, setPC. cbn [Z.ltb Z.compare Pos.compare Pos.compare_cont].
  apply reg_write_reg_eq. reg_len.
Qed.

Lemma setPC_is_setRegister_15_example :
  setPC engine16 0x8000 = setRegister engine16 15 0x8000
  ∧ getPC (setPC engine16 0x8000) = 0x8000
  ∧ getRegister (setPC engine16 0x8000) 15 = 0x8000.
Proof. apply (setPC_is_setRegister_15 engine16 0x8000). reflexivity. Defined.

(** ** init *)

(** X3. A successful [init] zeroes the memory, the counter, the pc and the
    lr shadow and sets R13 and the sp shadow to capacity - 4 (modulo 2^32),
    but of the registers it writes only R13 and R15: R0-R12, R14 and the
    CPSR keep the values they had before the call. *)
Theorem init_keeps_other_registers (calloc_ok : bool) (e e' : Engine) (n : Z) :
  registers_ok e →
  0 ≤ n < 2 ^ 32 →
  init calloc_ok e n = (true, e') →
  let capacity := if 0 <? n then n else 64 * 1024 * 1024 in
  (∀ i, 0 ≤ i ≤ 16 → i ≠ 13 → i ≠ 15 → getRegister e' i = getRegister e i)
  ∧ getRegister e' 13 = wrap32 (capacity - 4)
  ∧ sp e' = wrap32 (capacity - 4)
  ∧ getRegister e' 15 = 0 ∧ getPC e' = 0 ∧ lr e' = 0
  ∧ getInstructionCount e' = 0
  ∧ buffer e' = zeros capacity.
Proof.
  intros Hlen%length_registers_ok Hn. unfold init.
  destruct calloc_ok; [|discriminate]. intros [= <-].
  change (64 * 1024 * 1024) with default_capacity. cbv zeta.
  set (capacity := if 0 <? n then n else default_capacity).
  set (e' := mkEngine _ _ _ _ _ _ _ _ _).
  assert (Hreg : ∀ i, 0 ≤ i ≤ 16 →
    getRegister e' i
    = if i =? 15 then 0 else if i =? 13 then wrap32 (capacity - 4)
      else getRegister e i).
  { intros i Hi. rewrite !getRegister_reg by done.
    unfold reg, e'. cbn [registers].
    destruct (Z.eqb_spec i 15) as [->|H15].
    { apply list_lookup_total_insert_eq. rewrite length_insert. lia. }
    rewrite list_lookup_total_insert_ne by lia.
    destruct (Z.eqb_spec i 13) as [->|H13].
    { apply list_lookup_total_insert_eq. lia. }
    by rewrite list_lookup_total_insert_ne by lia. }
  split.
  { intros i Hi H13 H15. rewrite Hreg by done.
    replace (i =? 15) with false by lia. by replace (i =? 13) with false by lia. }
  split; [by rewrite Hreg by lia|]. split; [reflexivity|].
  split; [by rewrite Hreg by lia|]. done.
Qed.

(** A second [init] on an engine whose R2, R14 and CPSR were set. *)
Lemma init_keeps_other_registers_example :
  getRegister (snd (init true engine16_used 32)) 2 = 7
  ∧ getRegister (snd (init true engine16_used 32)) 14 = 0x44
  ∧ getRegister (snd (init true engine16_used 32)) 16 = 0x60000000
  ∧ lr (snd (init true engine16_used 32)) = 0
  ∧ getRegister (snd (init true engine16_used 32)) 13 = 28.
Proof.
  destruct (init_keeps_other_registers true engine16_used
              (snd (init true engine16_used 32)) 32)
    as (Hkeep & H13 & _ & _ & _ & Hlr & _); [reflexivity|lia|reflexivity|].
  rewrite !Hkeep by lia. rewrite H13, Hlr. repeat split.
Defined.

(** X4. When [calloc] fails, [init] leaves an engine without memory, also
    when it had memory before: every later [executeInstruction],
    [readMemory] and [writeMemory] returns [false] and changes nothing. The
    registers, the counter and the logical size are not reset:
    [getMemorySize] still reports the size of the buffer that was freed. *)
Theorem failed_init_disables_engine (e : Engine) (n : Z) :
  fst (init false e n) = false
  ∧ let e' := snd (init false e n) in
    memory e' = None
    ∧ (∀ instruction, executeInstruction e' instruction = Ok (false, e'))
    ∧ (∀ address len, readMemory e' address len = Ok None)
    ∧ (∀ realloc_ok address data,
         writeMemory realloc_ok e' address data = Ok (false, e'))
    ∧ getMemorySize e' = getMemorySize e
    ∧ registers e' = registers e
    ∧ getInstructionCount e' = getInstructionCount e.
Proof. repeat split. Qed.

(** ** What an instruction can change *)

Lemma executeLoadStore_false e instruction e' :
  executeLoadStore e instruction = Ok (false, e') → e' = e.
Proof.
  unfold executeLoadStore. intros H. repeat case_match; by simplify_eq.
Qed.

(** X5. A call of [executeInstruction] that returns [false] has changed
    nothing but the counter: no register, no flag, no shadow and no byte of
    memory differs (a rejected load or store commits nothing). *)
Theorem failure_changes_only_counter (e e' : Engine) (instruction : Z) :
  executeInstruction e instruction = Ok (false, e') →
  same_but_counter e e'.
Proof.
  unfold executeInstruction.
  destruct (memory e) as [buf|] eqn:Hmem; [|by intros [= <-]].
  set (e1 := set_instructionCount e _).
  assert (H1 : same_but_counter e e1) by done.
  destruct (negb _); [discriminate|].
  destruct (_ && _).
  { pose proof (executeDataProcessing_returns e1 instruction) as Hret.
    destruct (executeDataProcessing e1 instruction) as [r e2].
    cbn [fst] in Hret. subst r. discriminate. }
  destruct (_ =? 2); [discriminate|].
  destruct (is_load_store instruction); [|by intros [= <-]].
  by intros ->%executeLoadStore_false.
Qed.

(** Scenario 7: a word load at 0x100 with 16 bytes of memory fails and R0
    and the rest stay. *)
Lemma failure_changes_only_counter_example :
  ∃ e', executeInstruction (engine16_R1 0x100) 0xE7910000 = Ok (false, e')
        ∧ same_but_counter (engine16_R1 0x100) e'.
Proof.
  eexists. split; [vm_compute; reflexivity|].
  apply (failure_changes_only_counter _ _ 0xE7910000).
  vm_compute. reflexivity.
Defined.

Lemma executeDataProcessing_memory e instruction :
  let e' := snd (executeDataProcessing e instruction) in
  memory e' = memory e ∧ memorySize e' = memorySize e
  ∧ memoryCapacity e' = memoryCapacity e.
Proof.
  unfold executeDataProcessing. destruct (alu _ _ _ _) as [result carry].
  cbn [snd]. by repeat case_match.
Qed.

Lemma executeBranch_memory e instruction :
  let e' := snd (executeBranch e instruction) in
  memory e' = memory e ∧ memorySize e' = memorySize e
  ∧ memoryCapacity e' = memoryCapacity e.
Proof. unfold executeBranch. cbn [snd]. by repeat case_match. Qed.

Lemma executeLoadStore_memory e instruction r e' :
  executeLoadStore e instruction = Ok (r, e') →
  memorySize e' = memorySize e ∧ memoryCapacity e' = memoryCapacity e
  ∧ length (buffer e') = length (buffer e)
  ∧ (bit instruction 20 = true → memory e' = memory e).
Proof.
  unfold executeLoadStore.
  destruct (ls_rejects e instruction); [by intros [= _ <-]|].
  destruct (_ <? _); [discriminate|]. intros Hrun.
  apply (f_equal (λ o, match o with Ok p => snd p | _ => e end)) in Hrun.
  cbn [snd] in Hrun. subst e'.
  destruct (bit instruction 24), (bit instruction 20), (bit instruction 22),
    (field_Rd instruction =? 15);
    (split; [reflexivity|]); (split; [reflexivity|]);
    (split; [|done]);
    unfold buffer;
    cbn [memory set_memory set_pc write_reg set_registers default];
    unfold id, store32, store8; by rewrite ?length_insert.
Qed.

(** X6. [executeInstruction] never grows, shrinks or reallocates the memory:
    the logical size, the capacity and the length of the buffer stay, and
    the contents can differ only after a store (load/store word with bit 20
    clear) whose condition held. *)
Theorem only_stores_change_memory (e e' : Engine) (instruction : Z) (r : bool) :
  executeInstruction e instruction = Ok (r, e') →
  getMemorySize e' = getMemorySize e
  ∧ memoryCapacity e' = memoryCapacity e
  ∧ length (buffer e') = length (buffer e)
  ∧ (memory e' ≠ memory e →
     is_load_store instruction = true ∧ bit instruction 20 = false
     ∧ checkCondition e (field_cond instruction) = true).
Proof.
  unfold executeInstruction, getMemorySize.
  destruct (memory e) as [buf|] eqn:Hmem; [|by intros [= _ <-]].
  rewrite <- Hmem, checkCondition_count. set (e1 := set_instructionCount e _).
  assert (Hsame : ∀ e2, memory e2 = memory e1 → memorySize e2 = memorySize e1 →
    memoryCapacity e2 = memoryCapacity e1 →
    memorySize e2 = memorySize e ∧ memoryCapacity e2 = memoryCapacity e
    ∧ length (buffer e2) = length (buffer e)
    ∧ (memory e2 ≠ memory e →
       is_load_store instruction = true ∧ bit instruction 20 = false
       ∧ checkCondition e (field_cond instruction) = true)).
  { intros e2 Hm Hs Hc. unfold buffer. rewrite Hm, Hs, Hc. by repeat split. }
  destruct (checkCondition e _) eqn:Hcond; cbn [negb];
    [|intros [= _ <-]; by apply Hsame].
  destruct (_ && _).
  { pose proof (executeDataProcessing_memory e1 instruction) as (Hm & Hs & Hc).
    destruct (executeDataProcessing e1 instruction). intros [= _ <-].
    by apply Hsame. }
  destruct (_ =? 2).
  { pose proof (executeBranch_memory e1 instruction) as (Hm & Hs & Hc).
    destruct (executeBranch e1 instruction). intros [= _ <-].
    by apply Hsame. }
  destruct (is_load_store instruction); [|intros [= _ <-]; by apply Hsame].
  intros (Hs & Hc & Hlen & Hm)%executeLoadStore_memory.
  repeat split; try done.
  destruct (bit instruction 20); [|done].
  destruct H. by apply Hm.
Qed.

(** A word store at address 4 (R1 = 4, R2 = 0xAABBCCDD, STR R2, [R1, #0] as
    the executor decodes 0xE7812000) changes four bytes and nothing of the
    sizes. *)
Lemma only_stores_change_memory_example :
  ∃ e', executeInstruction (setRegister (engine16_R1 4) 2 0xAABBCCDD)
          0xE7812000 = Ok (true, e')
        ∧ getMemorySize e' = 16 ∧ memoryCapacity e' = 16
        ∧ buffer e'
          = [0; 0; 0; 0; 0xDD; 0xCC; 0xBB; 0xAA; 0; 0; 0; 0; 0; 0; 0; 0].
Proof.
  eexists. split; [vm_compute; reflexivity|].
  destruct (only_stores_change_memory
              (setRegister (engine16_R1 4) 2 0xAABBCCDD) _ 0xE7812000 true
              eq_refl) as (Hs & Hc & _).
  split; [exact Hs|]. split; [exact Hc|]. reflexivity.
Defined.

(** ** Comparisons and the conditions that read them *)

Lemma word32_lor x y : word32 x → word32 y → word32 (Z.lor x y).
Proof.
  unfold word32. intros Hx Hy.
  assert (Hnn : 0 ≤ Z.lor x y) by (apply Z.lor_nonneg; lia).
  split; [exact Hnn|].
  destruct (Z.eq_dec (Z.lor x y) 0) as [->|Hne]; [lia|].
  apply Z.log2_lt_pow2; [lia|]. rewrite Z.log2_lor by lia.
  assert (Hlog : ∀ z, 0 ≤ z < 2 ^ 32 → Z.log2 z < 32).
  { intros z Hz. destruct (Z.eq_dec z 0) as [->|]; [done|].
    apply Z.log2_lt_pow2; lia. }
  pose proof (Hlog x Hx). pose proof (Hlog y Hy). lia.
Qed.

Lemma word32_shr32 x n : word32 x → word32 (shr32 x n).
Proof.
  unfold word32, shr32. intros Hx.
  assert (Hn : 0 ≤ n mod 32) by (apply Z.mod_pos_bound; lia).
  rewrite Z.shiftr_div_pow2 by done.
  assert (Hp : 0 < 2 ^ (n mod 32)) by (apply Z.pow_pos_nonneg; lia).
  split; [apply Z.div_pos; lia|].
  apply Z.le_lt_trans with x; [|lia]. apply Z.div_le_upper_bound; nia.
Qed.

(** The second operand is a 32-bit value. *)
Lemma operand2_word32 e instruction :
  registers_ok e → word32 (operand2 e instruction).
Proof.
  intros Hregs. unfold operand2. destruct (bit instruction 25).
  - apply word32_lor; [apply word32_shr32|apply wrap32_word32].
    pose proof (land_ones_range instruction 8 ltac:(lia)) as H.
    change (Z.ones 8) with 0xFF in H. unfold word32. lia.
  - assert (Hm : word32 (reg e (field_Rm instruction))).
    { apply reg_word32; [done|].
      pose proof (field_Rm_range instruction). lia. }
    unfold barrelShift. repeat case_match;
      first [ apply wrap32_word32
            | by apply word32_shr32
            | exact Hm
            | apply word32_lor; [by apply word32_shr32|apply wrap32_word32] ].
Qed.

(** Bits 31, 30 and 29 after a flag update. *)
Lemma new_cpsr_NZC old result carry :
  bit (new_cpsr old result carry) 31 = bit result 31
  ∧ bit (new_cpsr old result carry) 30 = (result =? 0)
  ∧ bit (new_cpsr old result carry) 29 = carry.
Proof.
  unfold new_cpsr, bit.
  destruct (one_bit_cases (Z.shiftr result 31)) as [H|H]; rewrite H;
    destruct (result =? 0); destruct carry;
    rewrite !Z.shiftr_lor, !Z.shiftr_land, !Z.land_lor_distr_l,
      <- !Z.land_assoc;
    repeat match goal with
      | |- context [Z.land (Z.shiftr 0x0FFFFFFF ?k) 1] =>
          change (Z.land (Z.shiftr 0x0FFFFFFF k) 1) with 0
      end;
    rewrite !Z.land_0_r; repeat split.
Qed.

Lemma cpsr_write_reg e v :
  (16 < length (registers e))%nat → cpsr (write_reg e 16 v) = v.
Proof. intros H. unfold cpsr. apply reg_write_reg_eq. lia. Qed.

(** An instruction of the group TST, TEQ, CMP, CMN whose condition holds:
    the engine afterwards. *)
Lemma executeInstruction_compare e instruction :
  initialized e →
  field_opcode instruction = 0x0 → bit instruction 25 = false →
  checkCondition e (field_cond instruction) = true →
  0x8 ≤ field_op instruction ≤ 0xB →
  executeInstruction e instruction
  = Ok (true,
        let rc := alu (field_op instruction) (reg e (field_Rn instruction))
                      (operand2 e instruction)
                      (Z.land (Z.shiftr (cpsr e) 29) 1) in
        write_reg (set_instructionCount e (wrap64 (instructionCount e + 1)))
                  16 (new_cpsr (cpsr e) rc.1 rc.2)).
Proof.
  intros Hinit Hop Hform Hcond Hrange. unfold executeInstruction.
  destruct (memory e) as [buf|] eqn:Hmem; [|by destruct Hinit].
  rewrite checkCondition_count, Hcond, Hop, Hform. cbn [negb andb Z.eqb].
  set (e1 := set_instructionCount e _). unfold executeDataProcessing.
  change (operand2 e1 instruction) with (operand2 e instruction).
  change (reg e1 (field_Rn instruction)) with (reg e (field_Rn instruction)).
  change (cpsr e1) with (cpsr e).
  destruct (alu _ _ _ _) as [result carry]. cbn [fst snd].
  replace (field_op instruction <? 8) with false by lia.
  replace (11 <? field_op instruction) with false by lia. cbn [orb].
  unfold updates_flags, sets_flags.
  replace (8 <=? field_op instruction) with true by lia.
  replace (field_op instruction <=? 11) with true by lia.
  by rewrite !orb_true_r.
Qed.

(** X7. TST, TEQ, CMP and CMN (op 0x8..0xB) write no register R0-R15 and
    none of the shadows or the memory, whatever Rd and the S bit are; they
    always replace the flags, also when Rd is 15. *)
Theorem compare_ops_write_no_register (e : Engine) (instruction : Z) :
  initialized e →
  registers_ok e →
  field_opcode instruction = 0x0 → bit instruction 25 = false →
  checkCondition e (field_cond instruction) = true →
  0x8 ≤ field_op instruction ≤ 0xB →
  ∃ e', executeInstruction e instruction = Ok (true, e')
        ∧ (∀ i, 0 ≤ i ≤ 15 → getRegister e' i = getRegister e i)
        ∧ pc e' = pc e ∧ sp e' = sp e ∧ lr e' = lr e
        ∧ memory e' = memory e
        ∧ bit (cpsr e') 28 = false
        ∧ Z.land (cpsr e') 0x0FFFFFFF = Z.land (cpsr e) 0x0FFFFFFF.
Proof.
  intros Hinit Hlen%length_registers_ok Hop Hform Hcond Hrange.
  eexists. split; [by apply executeInstruction_compare|]. cbv zeta.
  split.
  { intros i Hi. rewrite !getRegister_reg by lia.
    by rewrite reg_write_reg_ne by lia. }
  repeat (split; [reflexivity|]).
  rewrite !cpsr_write_reg by reg_len.
  split; [apply new_cpsr_V|apply new_cpsr_low_bits].
Qed.

(** CMP with Rn = Rd = 15 and without the S bit (0xE14FF002): R15 and the
    pc stay, the flags change. *)
Lemma compare_ops_write_no_register_example :
  ∃ e', executeInstruction (setPC engine16_used 0x40) 0xE14FF002
        = Ok (true, e')
        ∧ getRegister e' 15 = 0x40 ∧ pc e' = 0x40
        ∧ bit (cpsr e') 28 = false.
Proof.
  destruct (compare_ops_write_no_register (setPC engine16_used 0x40)
              0xE14FF002) as (e' & Hrun & Hregs & Hpc & _ & _ & _ & HV & _);
    [discriminate|reflexivity|reflexivity|reflexivity|reflexivity
    |vm_compute; split; discriminate|].
  exists e'. split; [exact Hrun|].
  rewrite Hregs by lia. rewrite Hpc. split; [reflexivity|]. split; done.
Defined.

Lemma wrap32_sub_zero a b :
  word32 a → word32 b → (wrap32 (a - b) =? 0) = (a =? b).
Proof.
  unfold word32. intros Ha Hb.
  destruct (Z.eqb_spec a b) as [->|Hne].
  - by rewrite Z.sub_diag.
  - apply Z.eqb_neq. unfold wrap32.
    destruct (Z.le_gt_cases b a).
    + rewrite Z.mod_small by lia. lia.
    + replace (a - b) with (a - b + 2 ^ 32 + (-1) * 2 ^ 32) by lia.
      rewrite Z_mod_plus_full, Z.mod_small by lia. lia.
Qed.

(** X8. CMP (op 0xA) followed by a condition. With a = R[Rn] and b the
    second operand, in the engine after the comparison EQ holds exactly when
    a = b, CS when a >= b, HI when a > b (unsigned), and NE, CC, LS are
    their negations. GE and LT read only the sign bit of a - b, because the
    V flag is always cleared. *)
Theorem cmp_then_condition (e : Engine) (instruction : Z) :
  initialized e →
  registers_ok e →
  field_opcode instruction = 0x0 → bit instruction 25 = false →
  checkCondition e (field_cond instruction) = true →
  field_op instruction = 0xA →
  ∃ e', executeInstruction e instruction = Ok (true, e')
        ∧ let a := reg e (field_Rn instruction) in
          let b := operand2 e instruction in
          checkCondition e' 0x0 = (a =? b)
          ∧ checkCondition e' 0x1 = negb (a =? b)
          ∧ checkCondition e' 0x2 = (b <=? a)
          ∧ checkCondition e' 0x3 = (a <? b)
          ∧ checkCondition e' 0x8 = (b <? a)
          ∧ checkCondition e' 0x9 = (a <=? b)
          ∧ checkCondition e' 0xA = negb (bit (wrap32 (a - b)) 31)
          ∧ checkCondition e' 0xB = bit (wrap32 (a - b)) 31.
Proof.
  intros Hinit Hregs Hop Hform Hcond Hcmp.
  pose proof (length_registers_ok e Hregs) as Hlen.
  eexists. split; [apply executeInstruction_compare; try done; lia|].
  cbv zeta. rewrite Hcmp. cbn [alu fst snd].
  set (a := reg e (field_Rn instruction)). set (b := operand2 e instruction).
  assert (Ha : word32 a).
  { apply reg_word32; [done|]. pose proof (field_Rn_range instruction). lia. }
  assert (Hb : word32 b) by by apply operand2_word32.
  unfold checkCondition. rewrite cpsr_write_reg by reg_len.
  destruct (new_cpsr_NZC (cpsr e) (wrap32 (a - b)) (b <=? a))
    as (-> & -> & ->).
  rewrite new_cpsr_V, wrap32_sub_zero by done.
  destruct (bit (wrap32 (a - b)) 31); cbn [eqb negb];
    destruct (Z.eqb_spec a b), (Z.leb_spec b a), (Z.ltb_spec a b),
      (Z.ltb_spec b a), (Z.leb_spec a b); try lia; repeat split.
Qed.

(** CMP R1, R2 (0xE1510002) with R1 = 5 and R2 = 7. *)
Lemma cmp_then_condition_example :
  ∃ e', executeInstruction (setRegister (engine16_R1 5) 2 7) 0xE1510002
        = Ok (true, e')
        ∧ checkCondition e' 0x0 = false ∧ checkCondition e' 0x3 = true
        ∧ checkCondition e' 0x8 = false.
Proof.
  destruct (cmp_then_condition (setRegister (engine16_R1 5) 2 7) 0xE1510002)
    as (e' & Hrun & Heq & _ & _ & Hcc & Hhi & _);
    [discriminate|reflexivity|reflexivity|reflexivity|reflexivity
    |reflexivity|].
  exists e'. split; [exact Hrun|].
  rewrite Heq, Hcc, Hhi. repeat split.
Defined.

(** X9. The condition codes come in complementary pairs: for the codes
    0..13, flipping the lowest bit of the code negates the predicate. The
    codes 14 and 15 hold for every CPSR. *)
Theorem condition_pairs_are_complementary (e : Engine) (cond : Z) :
  0 ≤ cond ≤ 15 →
  if cond <? 14
  then checkCondition e (Z.lxor cond 1) = negb (checkCondition e cond)
  else checkCondition e cond = true.
Proof.
  intros Hc.
  assert (Hcases : cond = 0 ∨ cond = 1 ∨ cond = 2 ∨ cond = 3 ∨ cond = 4
    ∨ cond = 5 ∨ cond = 6 ∨ cond = 7 ∨ cond = 8 ∨ cond = 9 ∨ cond = 10
    ∨ cond = 11 ∨ cond = 12 ∨ cond = 13 ∨ cond = 14 ∨ cond = 15) by lia.
  unfold checkCondition.
  destruct (bit (cpsr e) 31), (bit (cpsr e) 30), (bit (cpsr e) 29),
    (bit (cpsr e) 28);
    repeat (destruct Hcases as [->|Hcases]; [reflexivity|]);
    subst cond; reflexivity.
Qed.

Lemma condition_pairs_are_complementary_example :
  checkCondition (engine16_CPSR 0x60000000) 0x9
  = negb (checkCondition (engine16_CPSR 0x60000000) 0x8).
Proof.
  apply (condition_pairs_are_complementary (engine16_CPSR 0x60000000) 0x8).
  lia.
Defined.

(** ** Routing *)

(** The engine with the instruction counted. *)
Lemma executeInstruction_load_store e instruction :
  initialized e → is_load_store instruction = true →
  checkCondition e (field_cond instruction) = true →
  executeInstruction e instruction
  = executeLoadStore
      (set_instructionCount e (wrap64 (instructionCount e + 1))) instruction.
Proof.
  intros Hinit Hls Hcond. unfold executeInstruction.
  destruct (memory e) as [buf|] eqn:Hmem; [|by destruct Hinit].
  rewrite checkCondition_count, Hcond, Hls. cbn [negb].
  replace ((field_opcode instruction =? 0) && negb (bit instruction 25))
    with false
    by (unfold is_load_store in Hls; destruct (bit instruction 25); lia).
  by replace (field_opcode instruction =? 2) with false
    by (unfold is_load_store in Hls; lia).
Qed.

Lemma executeInstruction_branch e instruction :
  initialized e → field_opcode instruction = 0x2 →
  checkCondition e (field_cond instruction) = true →
  executeInstruction e instruction
  = Ok (executeBranch
          (set_instructionCount e (wrap64 (instructionCount e + 1)))
          instruction).
Proof.
  intros Hinit Hop Hcond. unfold executeInstruction.
  destruct (memory e) as [buf|] eqn:Hmem; [|by destruct Hinit].
  by rewrite checkCondition_count, Hcond, Hop.
Qed.

(** ** Branch targets *)

Lemma wrap32_mod4 x : wrap32 x mod 4 = x mod 4.
Proof.
  unfold wrap32. pose proof (Z.div_mod x (2 ^ 32) ltac:(lia)) as H.
  set (q := x / 2 ^ 32) in *. set (r := x mod 2 ^ 32) in *.
  replace (x mod 4) with ((r + (2 ^ 30 * q) * 4) mod 4) by (f_equal; lia).
  symmetry. apply Z_mod_plus_full.
Qed.

Lemma sign_extend_26_shifted imm :
  0 ≤ imm < 2 ^ 24 →
  let d := sign_extend_26 (Z.shiftl imm 2) in
  - 2 ^ 25 ≤ d < 2 ^ 25 ∧ d mod 4 = 0.
Proof.
  intros Himm. cbv zeta. unfold sign_extend_26.
  rewrite Z.shiftl_mul_pow2 by lia.
  destruct (Z.ltb_spec (imm * 2 ^ 2) (2 ^ 25)).
  - split; [lia|]. apply Z_mod_mult.
  - split; [lia|].
    replace (imm * 2 ^ 2 - 2 ^ 26) with ((imm - 2 ^ 24) * 4) by lia.
    apply Z_mod_mult.
Qed.

(** X10. A branch keeps the alignment of the pc: the new pc is the old one
    plus 8 plus a multiple of 4 between -2^25 and 2^25 (modulo 2^32), so pc
    mod 4 is unchanged; the link value pc + 4 has the same alignment. *)
Theorem branch_keeps_alignment (e : Engine) (instruction : Z) :
  initialized e →
  field_opcode instruction = 0x2 →
  checkCondition e (field_cond instruction) = true →
  ∃ e' d, executeInstruction e instruction = Ok (true, e')
          ∧ - 2 ^ 25 ≤ d < 2 ^ 25 ∧ d mod 4 = 0
          ∧ getPC e' = wrap32 (getPC e + 8 + d)
          ∧ getPC e' mod 4 = getPC e mod 4
          ∧ (bit instruction 24 = true → lr e' mod 4 = getPC e mod 4).
Proof.
  intros Hinit Hop Hcond.
  pose proof (land_ones_range instruction 24 ltac:(lia)) as Himm.
  change (Z.ones 24) with 0xFFFFFF in Himm.
  destruct (sign_extend_26_shifted _ Himm) as [Hrange Hmul].
  set (d := sign_extend_26 _) in *.
  eexists _, d. split; [by apply executeInstruction_branch|].
  split; [exact Hrange|]. split; [exact Hmul|].
  unfold executeBranch, getPC.
  assert (Hpc : ∀ e1 : Engine, pc e1 = pc e →
    wrap32 (pc e1 + 8 + branch_offset instruction) = wrap32 (pc e + 8 + d)).
  { intros e1 ->. apply branch_offset_sign_extend. }
  assert (Halign : wrap32 (pc e + 8 + d) mod 4 = pc e mod 4).
  { rewrite wrap32_mod4.
    replace (pc e + 8 + d) with (pc e + (8 + d)) by lia.
    rewrite Z.add_mod, (Z.add_mod 8 d), Hmul by lia.
    change ((8 mod 4 + 0) mod 4) with 0. by rewrite Z.add_0_r, Z.mod_mod. }
  destruct (bit instruction 24); cbn [pc lr set_pc set_lr write_reg
    set_registers set_instructionCount snd];
    (split; [by apply Hpc|]); (split; [by rewrite Hpc|]); [|done].
  intros _. rewrite wrap32_mod4.
  rewrite Z.add_mod by lia. change (4 mod 4) with 0.
  by rewrite Z.add_0_r, Z.mod_mod.
Qed.

(** B with imm24 = 0xFFFFFE (0xEAFFFFFE) from pc = 0x40: the displacement is
    -8 and the pc stays 0x40. *)
Lemma branch_keeps_alignment_example :
  ∃ e' d, executeInstruction (setPC engine16 0x40) 0xEAFFFFFE = Ok (true, e')
          ∧ getPC e' = wrap32 (0x40 + 8 + d) ∧ getPC e' mod 4 = 0.
Proof.
  destruct (branch_keeps_alignment (setPC engine16 0x40) 0xEAFFFFFE)
    as (e' & d & Hrun & _ & _ & Hpc & Hal & _);
    [discriminate|reflexivity|reflexivity|].
  exists e', d. split; [exact Hrun|]. split; [exact Hpc|].
  rewrite Hal. reflexivity.
Defined.

(** ** Bytes and words in the buffer *)

Lemma load8_store8_eq buf a v :
  0 ≤ a < Z.of_nat (length buf) → load8 (store8 buf a v) a = v.
Proof.
  intros Ha. unfold load8, store8. apply list_lookup_total_insert_eq. lia.
Qed.

Lemma load8_store8_ne buf a a' v :
  0 ≤ a → 0 ≤ a' → a ≠ a' → load8 (store8 buf a v) a' = load8 buf a'.
Proof.
  intros Ha Ha' Hne. unfold load8, store8.
  apply list_lookup_total_insert_ne. lia.
Qed.

Lemma length_store8 buf a v : length (store8 buf a v) = length buf.
Proof. apply length_insert. Qed.

Lemma length_store32 buf a v : length (store32 buf a v) = length buf.
Proof. unfold store32. by rewrite !length_store8. Qed.

(** The four bytes of a 32-bit word, least significant first, make the word
    again. *)
Lemma word_of_bytes v :
  word32 v →
  Z.land v 0xFF + Z.shiftl (Z.land (Z.shiftr v 8) 0xFF) 8
  + Z.shiftl (Z.land (Z.shiftr v 16) 0xFF) 16
  + Z.shiftl (Z.land (Z.shiftr v 24) 0xFF) 24 = v.
Proof.
  unfold word32. intros Hv. change 0xFF with (Z.ones 8).
  rewrite !Z.land_ones, !Z.shiftr_div_pow2, !Z.shiftl_mul_pow2 by lia.
  change (2 ^ 8) with 256. change (2 ^ 16) with 65536.
  change (2 ^ 24) with 16777216. change (2 ^ 32) with 4294967296 in Hv.
  Z.div_mod_to_equations. lia.
Qed.

Lemma load32_store32 buf a v :
  word32 v → 0 ≤ a → a + 4 ≤ Z.of_nat (length buf) →
  load32 (store32 buf a v) a = v.
Proof.
  intros Hv Ha Hfit. unfold load32, store32.
  rewrite (load8_store8_eq _ (a + 3)) by (rewrite !length_store8; lia).
  rewrite (load8_store8_ne _ (a + 3) (a + 2)) by lia.
  rewrite (load8_store8_eq _ (a + 2)) by (rewrite !length_store8; lia).
  rewrite !(load8_store8_ne _ (a + 3) (a + 1)),
    !(load8_store8_ne _ (a + 2) (a + 1)) by lia.
  rewrite (load8_store8_eq _ (a + 1)) by (rewrite !length_store8; lia).
  rewrite !(load8_store8_ne _ (a + 3) a), !(load8_store8_ne _ (a + 2) a),
    !(load8_store8_ne _ (a + 1) a) by lia.
  rewrite load8_store8_eq by lia. by apply word_of_bytes.
Qed.

(** ** Stores and loads through the executor *)

(** The executor on a pre-indexed access (bit 24 set, so no writeback) that
    passes the range check of a well-formed buffer. *)
Lemma executeLoadStore_pre e instruction :
  memory_ok e → initialized e →
  bit instruction 24 = true →
  0 ≤ ls_address e instruction →
  ls_address e instruction + ls_width instruction ≤ memorySize e →
  executeLoadStore e instruction
  = Ok (true,
        let address := ls_address e instruction in
        let Rd := field_Rd instruction in
        if bit instruction 20 then
          let e' := write_reg e Rd (if bit instruction 22
                                    then load8 (buffer e) address
                                    else load32 (buffer e) address) in
          if Rd =? 15 then set_pc e' (reg e' Rd) else e'
        else
          set_memory e
            (Some (if bit instruction 22
                   then store8 (buffer e) address (Z.land (reg e Rd) 0xFF)
                   else store32 (buffer e) address (reg e Rd)))).
Proof.
  intros (Hlen & Hsize & Hcap) Hinit HP Ha Hfit.
  unfold executeLoadStore, ls_rejects.
  destruct (memory e) eqn:Hmem; [|by destruct Hinit].
  assert (Hw : 0 < ls_width instruction).
  { unfold ls_width. by destruct (bit instruction 22). }
  rewrite wrap32_id by (unfold word32; lia).
  replace (memorySize e <? ls_address e instruction + ls_width instruction)
    with false by lia.
  replace (Z.of_nat (length (buffer e))
           <? ls_address e instruction + ls_width instruction)
    with false by lia.
  by rewrite HP.
Qed.

Lemma ls_address_pre_range e instruction :
  bit instruction 24 = true → word32 (ls_address e instruction).
Proof.
  intros HP. unfold ls_address, ls_indexed. rewrite HP.
  destruct (bit instruction 23); apply wrap32_word32.
Qed.

(** X11. A store followed by a load of the same width at the same address
    (both pre-indexed, both conditions holding) puts the stored register
    into the loaded one: the whole word for a word access, the low 8 bits
    zero-extended for a byte access. *)
Theorem store_then_load (e : Engine) (st ld : Z) :
  initialized e → registers_ok e → memory_ok e →
  is_load_store st = true → is_load_store ld = true →
  checkCondition e (field_cond st) = true →
  checkCondition e (field_cond ld) = true →
  bit st 20 = false → bit ld 20 = true →
  bit ld 22 = bit st 22 →
  bit st 24 = true → bit ld 24 = true →
  ls_address e ld = ls_address e st →
  ls_address e st + ls_width st ≤ memorySize e →
  ∃ e1 e2,
    executeInstruction e st = Ok (true, e1)
    ∧ executeInstruction e1 ld = Ok (true, e2)
    ∧ getRegister e2 (field_Rd ld)
      = if bit st 22 then Z.land (getRegister e (field_Rd st)) 0xFF
        else getRegister e (field_Rd st).
Proof.
  intros Hinit Hregs Hmem Hst Hld Hcst Hcld HLst HLld HB HPst HPld Haddr Hfit.
  pose proof (length_registers_ok e Hregs) as Hlen.
  pose proof (field_Rd_range st) as HRst.
  pose proof (field_Rd_range ld) as HRld.
  pose proof (ls_address_pre_range e st HPst) as Ha. unfold word32 in Ha.
  set (a := ls_address e st) in *.
  set (v := reg e (field_Rd st)).
  assert (Hv : word32 v) by (apply reg_word32; [done|lia]).
  set (c := set_instructionCount e (wrap64 (instructionCount e + 1))).
  set (buf' := if bit st 22 then store8 (buffer e) a (Z.land v 0xFF)
               else store32 (buffer e) a v).
  set (e1 := set_memory c (Some buf')).
  assert (Hrun1 : executeInstruction e st = Ok (true, e1)).
  { rewrite executeInstruction_load_store by done. fold c.
    rewrite (executeLoadStore_pre c st Hmem Hinit HPst (proj1 Ha) Hfit).
    by rewrite HLst. }
  destruct Hmem as (Hblen & Hsize & Hcap).
  assert (Hlen' : length buf' = length (buffer e)).
  { unfold buf'. destruct (bit st 22);
      [apply length_store8|apply length_store32]. }
  assert (Hmem1 : memory_ok e1).
  { unfold memory_ok, buffer. cbn [e1 memory set_memory default memorySize
      memoryCapacity]. unfold id. rewrite Hlen'. done. }
  assert (Hinit1 : initialized e1) by discriminate.
  set (c1 := set_instructionCount e1 (wrap64 (instructionCount e1 + 1))).
  assert (Hwidth : ls_width ld = ls_width st) by (unfold ls_width; by rewrite HB).
  set (w := if bit st 22 then load8 buf' a else load32 buf' a).
  set (e2 := let e' := write_reg c1 (field_Rd ld) w in
             if field_Rd ld =? 15 then set_pc e' (reg e' (field_Rd ld))
             else e').
  assert (Hrun2 : executeInstruction e1 ld = Ok (true, e2)).
  { rewrite executeInstruction_load_store by done. fold c1.
    assert (Haddr1 : ls_address c1 ld = a) by exact Haddr.
    rewrite (executeLoadStore_pre c1 ld Hmem1 Hinit1 HPld);
      rewrite Haddr1, ?Hwidth; [|lia|exact Hfit].
    by rewrite HLld, HB. }
  exists e1, e2. split; [exact Hrun1|]. split; [exact Hrun2|].
  rewrite !getRegister_reg by lia. fold v.
  assert (Hw : reg e2 (field_Rd ld) = w).
  { unfold e2. cbv zeta. destruct (field_Rd ld =? 15);
      autorewrite with engine_frame; apply reg_write_reg_eq;
      unfold c1, e1, c; reg_len. }
  rewrite Hw. unfold w, buf'. unfold ls_width in Hfit.
  destruct (bit st 22).
  - apply load8_store8_eq. lia.
  - apply load32_store32; [done|lia|lia].
Qed.

(** Scenario 5 in the encoding the executor decodes: R0 = 0xDEADBEEF,
    R1 = 4, STR R0, [R1, #0] (0xE7810000), then LDR R2, [R1, #0]
    (0xE7912000). *)
Lemma store_then_load_example :
  ∃ e1 e2,
    executeInstruction (setRegister (engine16_R1 4) 0 0xDEADBEEF) 0xE7810000
    = Ok (true, e1)
    ∧ executeInstruction e1 0xE7912000 = Ok (true, e2)
    ∧ getRegister e2 2 = 0xDEADBEEF.
Proof.
  destruct (store_then_load (setRegister (engine16_R1 4) 0 0xDEADBEEF)
              0xE7810000 0xE7912000) as (e1 & e2 & H1 & H2 & Hv);
    try reflexivity; try discriminate.
  - repeat split; vm_compute; congruence.
  - exists e1, e2. split; [exact H1|]. split; [exact H2|exact Hv].
Defined.

Lemma Ok_pair_inv {A B : Type} (a a' : A) (b b' : B) :
  Ok (a, b) = Ok (a', b') → a = a' ∧ b = b'.
Proof. by intros [= -> ->]. Qed.

(** X12. A word with opcode bits 00 and bit 25 set - the encoding of the
    data-processing instructions with an immediate operand, such as MOV R1,
    #15 = 0xE3A0100F - goes to the load/store executor. With bit 24 set and
    bit 20 clear (MOV, ORR, BIC, MVN and the like without S) it is a pre-
    indexed store: whatever the call returns, no register, no flag and no
    shadow has changed. *)
Theorem immediate_form_writes_no_register (e e' : Engine) (instruction : Z)
  (r : bool) :
  field_opcode instruction = 0x0 →
  bit instruction 25 = true →
  bit instruction 24 = true →
  bit instruction 20 = false →
  executeInstruction e instruction = Ok (r, e') →
  is_load_store instruction = true
  ∧ registers e' = registers e
  ∧ pc e' = pc e ∧ sp e' = sp e ∧ lr e' = lr e.
Proof.
  intros Hop Hform HP HL.
  assert (Hls : is_load_store instruction = true).
  { unfold is_load_store. rewrite Hop, Hform. reflexivity. }
  intros Hrun. split; [exact Hls|]. revert Hrun.
  unfold executeInstruction.
  destruct (memory e) as [buf|] eqn:Hmem; [|by intros [= _ <-]].
  rewrite Hop, Hform, Hls. cbn [negb andb Z.eqb].
  destruct (negb _); [by intros [= _ <-]|].
  unfold executeLoadStore. rewrite HP, HL.
  destruct (ls_rejects _ _); [by intros [= _ <-]|].
  destruct (_ <? _); [discriminate|]. by intros [_ <-]%Ok_pair_inv.
Qed.

(** Scenario 1 as the code runs it: MOV R1, #15 (0xE3A0100F) with
    R1 = 0x11223344 stores R1 at address R0 + 15 and leaves R1 as it was. *)
Lemma immediate_form_writes_no_register_example :
  ∃ e', executeInstruction (setRegister engine32 1 0x11223344) 0xE3A0100F
        = Ok (true, e')
        ∧ getRegister e' 1 = 0x11223344
        ∧ readMemory e' 15 4 = Ok (Some [0x44; 0x33; 0x22; 0x11]).
Proof.
  assert (Hrun : ∃ e', executeInstruction (setRegister engine32 1 0x11223344)
                         0xE3A0100F = Ok (true, e')
                       ∧ readMemory e' 15 4
                         = Ok (Some [0x44; 0x33; 0x22; 0x11])).
  { eexists. split; vm_compute; reflexivity. }
  destruct Hrun as (e' & Hrun & Hread). exists e'.
  destruct (immediate_form_writes_no_register
              (setRegister engine32 1 0x11223344) e' 0xE3A0100F true
              eq_refl eq_refl eq_refl eq_refl Hrun) as (_ & Hregs & _).
  split; [exact Hrun|]. split; [|exact Hread].
  rewrite getRegister_reg by lia. unfold reg. rewrite Hregs. reflexivity.
Defined.

(** ** writeMemory: growth, contents and sizes *)

Lemma grow_Some_pow fuel : ∀ c size n,
  word32 c → grow fuel c size = Some n → ∃ k, 0 ≤ k ∧ n = wrap32 (c * 2 ^ k).
Proof.
  induction fuel as [|fuel IH]; intros c size n Hc; cbn [grow];
    destruct (c <? size); try discriminate;
    try (intros [= <-]; exists 0; split; [lia|];
         by rewrite Z.mul_1_r, wrap32_id).
  intros (k & Hk & ->)%IH; [|apply wrap32_word32].
  exists (k + 1). split; [lia|]. by apply wrap32_double_pow.
Qed.

(** What a successful [writeMemory] leaves: the old buffer, extended with
    zeros up to the new capacity, with the data copied in; the logical size
    raised to the end of the data if that is higher. *)
Lemma writeMemory_inv realloc_ok e address data e1 :
  memory_ok e → 0 ≤ address →
  writeMemory realloc_ok e address data = Ok (true, e1) →
  let len := Z.of_nat (length data) in
  ∃ capacity1,
    memoryCapacity e ≤ capacity1 < 2 ^ 32
    ∧ address + len ≤ capacity1
    ∧ (address + len ≤ memoryCapacity e → capacity1 = memoryCapacity e)
    ∧ (∃ k, 0 ≤ k ∧ capacity1 = wrap32 (memoryCapacity e * 2 ^ k))
    ∧ e1 = mkEngine (registers e)
             (Some (memcpy_to
                      (buffer e ++ zeros (capacity1 - memoryCapacity e))
                      address data))
             (Z.max (memorySize e) (address + len)) capacity1
             (isRunning e) (pc e) (sp e) (lr e) (instructionCount e).
Proof.
  intros (Hblen & Hsize & Hcap) Ha. unfold writeMemory. cbv zeta.
  remember (Z.of_nat (length data)) as len eqn:Hlen.
  remember (wrap32 (address + len)) as last eqn:Hlast.
  destruct (memory e) as [buf|] eqn:Hmem; [|discriminate].
  assert (Hbuf : buffer e = buf) by (unfold buffer; by rewrite Hmem).
  assert (Hlast' : 0 ≤ last < 2 ^ 32) by (rewrite Hlast; apply wrap32_word32).
  destruct (Z.ltb_spec (memoryCapacity e) last) as [Hgrow|Hfits].
  - unfold ensureMemory.
    replace (last <=? memoryCapacity e) with false by lia.
    destruct (grow 32 _ last) as [capacity1|] eqn:Hg; [|discriminate].
    destruct (grow_Some _ _ _ _ (wrap32_word32 _) Hg) as [Hw Hge].
    destruct (grow_Some_pow _ _ _ _ (wrap32_word32 _) Hg) as (k & Hk & Hpow).
    rewrite wrap32_double_pow in Hpow by done.
    destruct realloc_ok; cbn [obind fst snd negb]; [|discriminate].
    set (grown := buffer e ++ zeros (capacity1 - memoryCapacity e)).
    set (eg := set_memoryCapacity (set_memory e (Some grown)) capacity1).
    change (buffer eg) with grown.
    unfold word32 in Hw.
    assert (Hglen : Z.of_nat (length grown) = capacity1).
    { unfold grown. rewrite length_app, Nat2Z.inj_add, length_zeros by lia.
      lia. }
    rewrite Hglen.
    destruct (Z.ltb_spec capacity1 (address + len)) as [|Hin];
      [discriminate|].
    assert (Hexact : last = address + len).
    { rewrite Hlast. apply wrap32_id. unfold word32. lia. }
    change (memorySize (set_memory eg (Some (memcpy_to grown address data))))
      with (memorySize e).
    intros Hrun.
    exists capacity1. split; [lia|]. split; [lia|]. split; [lia|].
    split; [exists (k + 1); split; [lia|done]|]. revert Hrun.
    destruct (Z.ltb_spec (memorySize e) last); intros [_ <-]%Ok_pair_inv;
      unfold set_memorySize, set_memory, eg, set_memoryCapacity, set_memory;
      cbn [registers memory memorySize memoryCapacity isRunning pc sp lr
           instructionCount]; f_equal; lia.
  - cbn [obind fst snd negb]. rewrite Hblen.
    destruct (Z.ltb_spec (memoryCapacity e) (address + len)) as [|Hin];
      [discriminate|].
    assert (Hexact : last = address + len).
    { rewrite Hlast. apply wrap32_id. unfold word32. lia. }
    change (memorySize (set_memory e
              (Some (memcpy_to (buffer e) address data))))
      with (memorySize e).
    intros Hrun.
    exists (memoryCapacity e). split; [lia|]. split; [lia|]. split; [done|].
    split; [exists 0; split; [lia|];
            rewrite Z.mul_1_r, wrap32_id; [done|unfold word32; lia]|].
    rewrite Z.sub_diag. change (zeros 0) with (@nil Z). rewrite app_nil_r.
    revert Hrun.
    destruct (Z.ltb_spec (memorySize e) last); intros [_ <-]%Ok_pair_inv;
      unfold set_memorySize, set_memory;
      cbn [registers memory memorySize memoryCapacity isRunning pc sp lr
           instructionCount]; f_equal; lia.
Qed.

Lemma load8_app buf tail p :
  0 ≤ p →
  load8 (buf ++ tail) p
  = if p <? Z.of_nat (length buf) then load8 buf p
    else load8 tail (p - Z.of_nat (length buf)).
Proof.
  intros Hp. unfold load8. destruct (Z.ltb_spec p (Z.of_nat (length buf))).
  - apply lookup_total_app_l. lia.
  - rewrite lookup_total_app_r by lia. f_equal. lia.
Qed.

Lemma load8_zeros n p : 0 ≤ p < n → load8 (zeros n) p = 0.
Proof.
  intros Hp. unfold load8, zeros. apply lookup_total_replicate_2. lia.
Qed.

(** The bytes of the buffer after [memcpy]. *)
Lemma load8_memcpy_to buf address data p :
  0 ≤ address → 0 ≤ p →
  address + Z.of_nat (length data) ≤ Z.of_nat (length buf) →
  load8 (memcpy_to buf address data) p
  = if (address <=? p) && (p <? address + Z.of_nat (length data))
    then load8 data (p - address)
    else load8 buf p.
Proof.
  intros Ha Hp Hfit. unfold memcpy_to.
  assert (Htake : Z.of_nat (length (take (Z.to_nat address) buf)) = address).
  { rewrite length_take. lia. }
  rewrite load8_app, Htake by done.
  destruct (Z.ltb_spec p address), (Z.leb_spec address p); try lia;
    cbn [andb].
  - unfold load8. rewrite lookup_total_take_lt by lia. done.
  - rewrite load8_app by lia.
    destruct (Z.ltb_spec (p - address) (Z.of_nat (length data))).
    + by replace (p <? address + Z.of_nat (length data)) with true by lia.
    + replace (p <? address + Z.of_nat (length data)) with false by lia.
      unfold load8. rewrite lookup_total_drop. f_equal. lia.
Qed.

Lemma memcpy_from_one buf p :
  0 ≤ p < Z.of_nat (length buf) → memcpy_from buf p 1 = [load8 buf p].
Proof.
  intros Hp. unfold memcpy_from, load8.
  destruct (lookup_lt_is_Some_2 buf (Z.to_nat p) ltac:(lia)) as [x Hx].
  rewrite (drop_S _ _ _ Hx), (list_lookup_total_correct _ _ _ Hx).
  reflexivity.
Qed.

(** X13. After a successful [writeMemory] every readable byte is accounted
    for: inside the written range it is the byte of the data; outside it,
    below the old capacity it is what the buffer held before, and from the
    old capacity on (memory added by the growth) it is 0. *)
Theorem writeMemory_bytes (realloc_ok : bool) (e e1 : Engine) (address : Z)
  (data : list Z) (p : Z) :
  memory_ok e →
  0 ≤ address →
  writeMemory realloc_ok e address data = Ok (true, e1) →
  0 ≤ p < getMemorySize e1 →
  readMemory e1 p 1
  = Ok (Some [ if (address <=? p)
                  && (p <? address + Z.of_nat (length data))
               then load8 data (p - address)
               else if p <? memoryCapacity e then load8 (buffer e) p
               else 0 ]).
Proof.
  intros Hok Ha Hrun Hp.
  destruct (writeMemory_memory_ok _ _ _ _ _ Hok Ha Hrun) as (Hok1 & Hinit1 & _).
  destruct (writeMemory_inv _ _ _ _ _ Hok Ha Hrun)
    as (capacity1 & Hcap & Hfit & _ & _ & ->).
  destruct Hok as (Hblen & Hsize & Hcap0).
  unfold getMemorySize in Hp. cbn [memorySize] in Hp.
  rewrite readMemory_in_range by (try done; cbn [memorySize]; lia).
  unfold buffer at 1. cbn [memory default]. unfold id.
  set (grown := buffer e ++ zeros (capacity1 - memoryCapacity e)).
  assert (Hglen : Z.of_nat (length grown) = capacity1).
  { unfold grown. rewrite length_app, Nat2Z.inj_add, length_zeros by lia.
    lia. }
  rewrite memcpy_from_one by (rewrite memcpy_to_length by lia; lia).
  do 2 f_equal. rewrite load8_memcpy_to by lia.
  destruct (_ && _); [done|]. unfold grown.
  rewrite load8_app, Hblen by lia.
  destruct (Z.ltb_spec p (memoryCapacity e)); [done|].
  f_equal. apply load8_zeros. lia.
Qed.

(** Writing two bytes at 20 into 16 bytes of memory whose byte 3 is 7: the
    buffer grows to 32, byte 3 is still 7, bytes 16..19 are 0 and byte 21
    is the second byte written. *)
Lemma writeMemory_bytes_example :
  ∃ e0 e1,
    writeMemory true engine16 3 [7] = Ok (true, e0)
    ∧ writeMemory true e0 20 [0xAA; 0xBB] = Ok (true, e1)
    ∧ readMemory e1 3 1 = Ok (Some [7])
    ∧ readMemory e1 17 1 = Ok (Some [0])
    ∧ readMemory e1 21 1 = Ok (Some [0xBB]).
Proof.
  assert (H0 : ∃ e0, writeMemory true engine16 3 [7] = Ok (true, e0)
                     ∧ memory_ok e0 ∧ memoryCapacity e0 = 16
                     ∧ load8 (buffer e0) 3 = 7).
  { eexists. split; [vm_compute; reflexivity|].
    repeat split; vm_compute; congruence. }
  destruct H0 as (e0 & Hrun0 & Hok0 & Hcap0 & Hb3).
  assert (H1 : ∃ e1, writeMemory true e0 20 [0xAA; 0xBB] = Ok (true, e1)
                     ∧ getMemorySize e1 = 22).
  { apply Ok_pair_inv in Hrun0 as [_ <-]. eexists.
    split; vm_compute; reflexivity. }
  destruct H1 as (e1 & Hrun1 & Hsize1).
  exists e0, e1. split; [exact Hrun0|]. split; [exact Hrun1|].
  pose proof (λ p, writeMemory_bytes true e0 e1 20 [0xAA; 0xBB] p
                     Hok0 ltac:(lia) Hrun1) as Hbytes.
  rewrite Hsize1, Hcap0 in Hbytes.
  rewrite !Hbytes by lia. rewrite Hb3. repeat split.
Defined.

(** X14. A successful [writeMemory] never shrinks anything: the logical size
    becomes the larger of the old size and the end of the data, the capacity
    stays when the data fits and otherwise becomes a doubling of the old one
    (modulo 2^32) that holds the data; registers, shadows and the
    instruction counter are untouched. *)
Theorem writeMemory_sizes (realloc_ok : bool) (e e1 : Engine) (address : Z)
  (data : list Z) :
  memory_ok e →
  0 ≤ address →
  writeMemory realloc_ok e address data = Ok (true, e1) →
  let last := address + Z.of_nat (length data) in
  getMemorySize e1 = Z.max (getMemorySize e) last
  ∧ memoryCapacity e ≤ memoryCapacity e1
  ∧ last ≤ memoryCapacity e1
  ∧ (last ≤ memoryCapacity e → memoryCapacity e1 = memoryCapacity e)
  ∧ (∃ k, 0 ≤ k ∧ memoryCapacity e1 = wrap32 (memoryCapacity e * 2 ^ k))
  ∧ registers e1 = registers e ∧ pc e1 = pc e ∧ sp e1 = sp e ∧ lr e1 = lr e
  ∧ getInstructionCount e1 = getInstructionCount e.
Proof.
  intros Hok Ha Hrun.
  destruct (writeMemory_inv _ _ _ _ _ Hok Ha Hrun)
    as (capacity1 & Hcap & Hfit & Hsame & Hpow & ->).
  cbv zeta. unfold getMemorySize, getInstructionCount.
  cbn [memorySize memoryCapacity registers pc sp lr instructionCount].
  repeat split; try done; lia.
Qed.

(** Five bytes at 14 in 16 bytes of memory: the size becomes 19 and the
    capacity doubles once, to 32. *)
Lemma writeMemory_sizes_example :
  ∃ e1, writeMemory true engine16 14 [1; 2; 3; 4; 5] = Ok (true, e1)
        ∧ getMemorySize e1 = 19 ∧ 19 ≤ memoryCapacity e1.
Proof.
  assert (H : ∃ e1, writeMemory true engine16 14 [1; 2; 3; 4; 5]
                    = Ok (true, e1))
    by (eexists; vm_compute; reflexivity).
  destruct H as [e1 Hrun]. exists e1. split; [exact Hrun|].
  assert (Hok : memory_ok engine16) by (repeat split; vm_compute; congruence).
  destruct (writeMemory_sizes true engine16 e1 14 [1; 2; 3; 4; 5] Hok
              ltac:(lia) Hrun) as (Hsize & _ & Hfit & _).
  split; [exact Hsize|exact Hfit].
Defined.

(** X15. A write that lies within the capacity does not call the allocator:
    it succeeds, with the same result, whether [realloc] would succeed or
    not. *)
Theorem writeMemory_within_capacity (e : Engine) (address : Z) (data : list Z) :
  initialized e →
  memory_ok e →
  0 ≤ address →
  address + Z.of_nat (length data) ≤ memoryCapacity e →
  ∃ e1, ∀ realloc_ok, writeMemory realloc_ok e address data = Ok (true, e1).
Proof.
  intros Hinit (Hblen & Hsize & Hcap) Ha Hfit. unfold writeMemory.
  destruct (memory e) as [buf|] eqn:Hmem; [|by destruct Hinit].
  rewrite wrap32_id by (unfold word32; lia).
  replace (memoryCapacity e <? address + Z.of_nat (length data))
    with false by lia.
  cbn [obind fst snd negb]. rewrite Hblen.
  replace (memoryCapacity e <? address + Z.of_nat (length data))
    with false by lia.
  eexists. intros _. reflexivity.
Qed.

Lemma writeMemory_within_capacity_example :
  ∃ e1, ∀ realloc_ok,
    writeMemory realloc_ok engine16 12 [1; 2; 3; 4] = Ok (true, e1).
Proof.
  apply (writeMemory_within_capacity engine16 12 [1; 2; 3; 4]).
  - discriminate.
  - repeat split; vm_compute; congruence.
  - lia.
  - vm_compute. discriminate.
Defined.

(** X16. When the buffer must grow and [realloc] fails, [writeMemory]
    returns [false] and the engine is as it was: no byte is written and
    neither size changes. (The growth loop runs before the allocation, so
    the call can also fail to return.) *)
Theorem writeMemory_failed_growth (e : Engine) (address : Z) (data : list Z) :
  memoryCapacity e < wrap32 (address + Z.of_nat (length data)) →
  writeMemory false e address data = Ok (false, e)
  ∨ writeMemory false e address data = Diverges.
Proof.
  intros Hgrow. unfold writeMemory.
  destruct (memory e); [|by left].
  replace (memoryCapacity e <? wrap32 (address + Z.of_nat (length data)))
    with true by lia.
  unfold ensureMemory.
  replace (wrap32 (address + Z.of_nat (length data)) <=? memoryCapacity e)
    with false by lia.
  destruct (grow 32 _ _); [by left|by right].
Qed.

Lemma writeMemory_failed_growth_example :
  writeMemory false engine16 14 [1; 2; 3; 4; 5] = Ok (false, engine16).
Proof.
  destruct (writeMemory_failed_growth engine16 14 [1; 2; 3; 4; 5]) as [H|H].
  - vm_compute. reflexivity.
  - exact H.
  - vm_compute in H. discriminate.
Defined.

(** X17. The growth loop does not end when no doubling of the capacity
    reaches the size: with a capacity that is a power of two (as after
    [init] with a power of two or with 0) a write that ends above 2^31 never
    returns, whatever the allocator would do. *)
Theorem writeMemory_hangs (realloc_ok : bool) (e : Engine) (address : Z)
  (data : list Z) (j : Z) :
  initialized e →
  0 ≤ j ≤ 31 →
  memoryCapacity e = 2 ^ j →
  2 ^ 31 < wrap32 (address + Z.of_nat (length data)) →
  writeMemory realloc_ok e address data = Diverges.
Proof.
  intros Hinit Hj Hcap Hlast. unfold writeMemory.
  destruct (memory e) eqn:Hmem; [|by destruct Hinit].
  set (last := wrap32 _) in *.
  assert (Hpow : 2 ^ j ≤ 2 ^ 31) by (apply Z.pow_le_mono_r; lia).
  replace (memoryCapacity e <? last) with true by lia.
  unfold ensureMemory. replace (last <=? memoryCapacity e) with false by lia.
  assert (Hnone : grow 32 (wrap32 (memoryCapacity e * 2)) last = None).
  { apply grow_None; [apply wrap32_word32|]. intros k Hk.
    rewrite wrap32_double_pow, Hcap, <- Z.pow_add_r by lia.
    destruct (Z.le_gt_cases (j + (k + 1)) 31) as [Hle|Hgt].
    - rewrite wrap32_id.
      + apply Z.le_lt_trans with (2 ^ 31); [|lia].
        apply Z.pow_le_mono_r; lia.
      + unfold word32. split; [apply Z.pow_nonneg; lia|].
        apply Z.pow_lt_mono_r; lia.
    - unfold wrap32.
      replace (j + (k + 1)) with (j + (k + 1) - 32 + 32) by lia.
      rewrite Z.pow_add_r by lia. rewrite Z_mod_mult. lia. }
  by rewrite Hnone.
Qed.

(** One byte at 0xFFFFFFF0 with 16 bytes of memory. *)
Lemma writeMemory_hangs_example :
  writeMemory true engine16 0xFFFFFFF0 [1] = Diverges.
Proof.
  apply (writeMemory_hangs true engine16 0xFFFFFFF0 [1] 4).
  - discriminate.
  - lia.
  - reflexivity.
  - vm_compute. reflexivity.
Defined.

(** ** Batches *)

Lemma executeInstruction_counts_once e instruction r e' :
  initialized e →
  executeInstruction e instruction = Ok (r, e') →
  instructionCount e' = wrap64 (instructionCount e + 1) ∧ initialized e'.
Proof.
  intros Hinit. unfold executeInstruction.
  destruct (memory e) as [buf|] eqn:Hmem; [|by destruct Hinit].
  set (e1 := set_instructionCount e _).
  assert (H1 : ∀ e2, instructionCount e2 = instructionCount e1 →
    length (buffer e2) = length (buffer e1) → memory e2 ≠ None ∨ True →
    instructionCount e2 = wrap64 (instructionCount e + 1)) by by intros e2 ->.
  assert (Hinit1 : initialized e1) by (unfold initialized, e1; cbn; congruence).
  destruct (negb _); [by intros [_ <-]%Ok_pair_inv|].
  destruct (_ && _).
  { pose proof (executeDataProcessing_count e1 instruction) as Hc.
    pose proof (executeDataProcessing_memory e1 instruction) as (Hm & _).
    destruct (executeDataProcessing e1 instruction) as [r2 e2].
    intros [_ <-]%Ok_pair_inv. cbn [snd] in *. split; [done|].
    unfold initialized. by rewrite Hm. }
  destruct (_ =? 2).
  { pose proof (executeBranch_count e1 instruction) as Hc.
    pose proof (executeBranch_memory e1 instruction) as (Hm & _).
    destruct (executeBranch e1 instruction) as [r2 e2].
    intros [_ <-]%Ok_pair_inv. cbn [snd] in *. split; [done|].
    unfold initialized. by rewrite Hm. }
  destruct (is_load_store instruction); [|by intros [_ <-]%Ok_pair_inv].
  intros Hrun. split; [by rewrite (executeLoadStore_count _ _ _ _ Hrun)|].
  revert Hrun. unfold executeLoadStore.
  destruct (ls_rejects e1 instruction); [by intros [_ <-]%Ok_pair_inv|].
  destruct (_ <? _); [discriminate|]. intros [_ <-]%Ok_pair_inv.
  unfold initialized.
  destruct (bit instruction 24), (bit instruction 20),
    (field_Rd instruction =? 15); cbn [memory set_memory set_pc write_reg
    set_registers]; first [discriminate | exact Hinit1].
Qed.

Lemma executeInstructions_range instructions : ∀ e n e',
  Z.of_nat (length instructions) < 2 ^ 32 →
  executeInstructions e instructions = Ok (n, e') →
  0 ≤ n ≤ Z.of_nat (length instructions).
Proof.
  induction instructions as [|i rest IH]; intros e n e' Hlen; cbn [executeInstructions].
  { intros [<- _]%Ok_pair_inv. done. }
  cbn [length] in Hlen.
  destruct (executeInstruction e i) as [[r e1]| |]; cbn [obind fst snd];
    [|discriminate..].
  destruct r; [|intros [<- _]%Ok_pair_inv; cbn [length]; lia].
  destruct (executeInstructions e1 rest) as [[n1 e2]| |] eqn:Hrest;
    cbn [obind fst snd]; [|discriminate..].
  apply IH in Hrest; [|lia]. intros [<- _]%Ok_pair_inv.
  rewrite wrap32_id by (unfold word32; lia). cbn [length]. lia.
Qed.

(** X18. A batch stops at the first word that fails: when the words before
    it all succeed, the result is their number, the engine is the one the
    failing word left, and the words after it are not executed. *)
Theorem batch_stops_at_first_failure (e e1 e2 : Engine)
  (before after : list Z) (failing : Z) :
  Z.of_nat (length (before ++ failing :: after)) < 2 ^ 32 →
  executeInstructions e before = Ok (Z.of_nat (length before), e1) →
  executeInstruction e1 failing = Ok (false, e2) →
  executeInstructions e (before ++ failing :: after)
  = Ok (Z.of_nat (length before), e2).
Proof.
  revert e. induction before as [|i rest IH]; intros e Hlen Hbefore Hfail.
  { apply Ok_pair_inv in Hbefore as [_ <-].
    cbn [app executeInstructions]. by rewrite Hfail. }
  rewrite length_app in Hlen. cbn [length] in Hlen.
  rewrite !Nat2Z.inj_add, !Nat2Z.inj_succ in Hlen.
  revert Hbefore. cbn [app executeInstructions].
  destruct (executeInstruction e i) as [[r e0]| |]; cbn [obind fst snd];
    [|discriminate..].
  destruct r; [|intros [Hn _]%Ok_pair_inv; cbn [length] in Hn; lia].
  destruct (executeInstructions e0 rest) as [[n1 e3]| |] eqn:Hrest;
    cbn [obind fst snd]; [|discriminate..].
  intros [Hn <-]%Ok_pair_inv.
  pose proof (executeInstructions_range rest e0 n1 e3 ltac:(lia) Hrest)
    as Hrange.
  rewrite wrap32_id in Hn by (unfold word32; lia).
  cbn [length] in Hn. rewrite Nat2Z.inj_succ in Hn.
  assert (n1 = Z.of_nat (length rest)) as -> by lia.
  rewrite (IH e0); [|rewrite length_app; cbn [length]; lia|done|done].
  cbn [obind fst snd]. rewrite wrap32_id by (unfold word32; lia).
  cbn [length]. do 2 f_equal. lia.
Qed.

(** ADD R4, R2, R3, then the illegal word, then a branch that is not
    executed. *)
Lemma batch_stops_at_first_failure_example :
  ∃ e2, executeInstructions engine16_used [0xE0824003; 0xEC000000; 0xEA000000]
        = Ok (1, e2)
        ∧ getInstructionCount e2 = 2 ∧ getPC e2 = 0.
Proof.
  assert (H1 : ∃ e1, executeInstructions engine16_used [0xE0824003]
                     = Ok (1, e1)
                     ∧ ∃ e2, executeInstruction e1 0xEC000000 = Ok (false, e2)
                             ∧ getInstructionCount e2 = 2 ∧ getPC e2 = 0).
  { eexists. split; [vm_compute; reflexivity|].
    eexists. split; [vm_compute; reflexivity|]. by split. }
  destruct H1 as (e1 & Hbefore & e2 & Hfail & Hcount & Hpc).
  exists e2. split; [|by split].
  apply (batch_stops_at_first_failure engine16_used e1 e2 [0xE0824003]
           [0xEA000000] 0xEC000000); [vm_compute; reflexivity|done|done].
Defined.

(** X19. Batches compose: when every word of a first batch succeeds, running
    a second batch from the engine it left is the same as running the two as
    one, and the counts add. *)
Theorem batch_append (e e1 e2 : Engine) (first second : list Z) (n : Z) :
  Z.of_nat (length (first ++ second)) < 2 ^ 32 →
  executeInstructions e first = Ok (Z.of_nat (length first), e1) →
  executeInstructions e1 second = Ok (n, e2) →
  executeInstructions e (first ++ second)
  = Ok (Z.of_nat (length first) + n, e2).
Proof.
  revert e. induction first as [|i rest IH]; intros e Hlen Hfirst Hsecond.
  { apply Ok_pair_inv in Hfirst as [_ <-]. cbn [app length].
    rewrite Hsecond. reflexivity. }
  rewrite length_app in Hlen. cbn [length] in Hlen.
  rewrite !Nat2Z.inj_add, !Nat2Z.inj_succ in Hlen.
  revert Hfirst. cbn [app executeInstructions].
  destruct (executeInstruction e i) as [[r e0]| |]; cbn [obind fst snd];
    [|discriminate..].
  destruct r; [|intros [Hn _]%Ok_pair_inv; cbn [length] in Hn; lia].
  destruct (executeInstructions e0 rest) as [[n1 e3]| |] eqn:Hrest;
    cbn [obind fst snd]; [|discriminate..].
  intros [Hn <-]%Ok_pair_inv.
  pose proof (executeInstructions_range rest e0 n1 e3 ltac:(lia) Hrest)
    as Hrange.
  pose proof (executeInstructions_range second _ n e2 ltac:(lia) Hsecond)
    as Hrange2.
  rewrite wrap32_id in Hn by (unfold word32; lia).
  cbn [length] in Hn. rewrite Nat2Z.inj_succ in Hn.
  assert (n1 = Z.of_nat (length rest)) as -> by lia.
  rewrite (IH e0); [|rewrite length_app; lia|done|done].
  cbn [obind fst snd]. rewrite wrap32_id by (unfold word32; lia).
  cbn [length]. do 2 f_equal. lia.
Qed.

Lemma batch_append_example :
  ∃ e1 e2,
    executeInstructions engine16_used [0xE0824003] = Ok (1, e1)
    ∧ executeInstructions e1 [0xEB000000; 0xEC000000] = Ok (1, e2)
    ∧ executeInstructions engine16_used [0xE0824003; 0xEB000000; 0xEC000000]
      = Ok (2, e2).
Proof.
  assert (H1 : ∃ e1, executeInstructions engine16_used [0xE0824003]
                     = Ok (1, e1)
                     ∧ ∃ e2, executeInstructions e1 [0xEB000000; 0xEC000000]
                             = Ok (1, e2)).
  { eexists. split; [vm_compute; reflexivity|].
    eexists. vm_compute. reflexivity. }
  destruct H1 as (e1 & Hfirst & e2 & Hsecond).
  exists e1, e2. split; [exact Hfirst|]. split; [exact Hsecond|].
  apply (batch_append engine16_used e1 e2 [0xE0824003]
           [0xEB000000; 0xEC000000] 1); [vm_compute; reflexivity|done|done].
Defined.

(** X20. The instruction counter after a batch on an initialized engine: it
    has advanced (modulo 2^64) by the number returned, plus one when the
    batch was cut short, because the failing word is counted too. *)
Theorem batch_counter (instructions : list Z) (e e' : Engine) (n : Z) :
  initialized e →
  0 ≤ getInstructionCount e < 2 ^ 64 →
  Z.of_nat (length instructions) < 2 ^ 32 →
  executeInstructions e instructions = Ok (n, e') →
  0 ≤ n ≤ Z.of_nat (length instructions)
  ∧ getInstructionCount e'
    = wrap64 (getInstructionCount e + n
              + if n <? Z.of_nat (length instructions) then 1 else 0).
Proof.
  intros Hinit Hcount Hlen Hrun.
  split; [by eapply executeInstructions_range|].
  revert e n e' Hinit Hcount Hlen Hrun. unfold getInstructionCount.
  induction instructions as [|i rest IH]; intros e n e' Hinit Hcount Hlen;
    cbn [executeInstructions].
  { intros [<- <-]%Ok_pair_inv. cbn [length].
    change (0 <? Z.of_nat 0) with false. rewrite !Z.add_0_r.
    symmetry. apply Z.mod_small. exact Hcount. }
  cbn [length] in Hlen. rewrite Nat2Z.inj_succ in Hlen.
  destruct (executeInstruction e i) as [[r e0]| |] eqn:Hstep;
    cbn [obind fst snd]; [|discriminate..].
  destruct (executeInstruction_counts_once _ _ _ _ Hinit Hstep)
    as [Hc0 Hinit0].
  assert (Hrange0 : 0 ≤ instructionCount e0 < 2 ^ 64).
  { rewrite Hc0. apply Z.mod_pos_bound. lia. }
  destruct r.
  - destruct (executeInstructions e0 rest) as [[n1 e3]| |] eqn:Hrest;
      cbn [obind fst snd]; [|discriminate..].
    pose proof (executeInstructions_range rest e0 n1 e3 ltac:(lia) Hrest)
      as Hr.
    intros [<- <-]%Ok_pair_inv.
    rewrite (IH _ _ _ Hinit0 Hrange0 ltac:(lia) Hrest), Hc0.
    rewrite wrap32_id by (unfold word32; lia).
    cbn [length]. rewrite Nat2Z.inj_succ. unfold wrap64.
    assert (Hb : (n1 + 1 <? Z.succ (Z.of_nat (length rest)))
                 = (n1 <? Z.of_nat (length rest))).
    { destruct (Z.ltb_spec n1 (Z.of_nat (length rest)));
        [apply Z.ltb_lt|apply Z.ltb_ge]; lia. }
    rewrite Hb, <- Z.add_assoc, Z.add_mod_idemp_l by lia. f_equal. lia.
  - intros [<- <-]%Ok_pair_inv. cbn [length]. rewrite Nat2Z.inj_succ.
    rewrite (proj2 (Z.ltb_lt 0 (Z.succ (Z.of_nat (length rest))))) by lia.
    rewrite Hc0. f_equal. lia.
Qed.

Lemma batch_counter_example :
  ∃ e', executeInstructions engine16_used [0xE0824003; 0xEC000000; 0xEA000000]
        = Ok (1, e')
        ∧ getInstructionCount e' = 2.
Proof.
  assert (H : ∃ e', executeInstructions engine16_used
                      [0xE0824003; 0xEC000000; 0xEA000000] = Ok (1, e'))
    by (eexists; vm_compute; reflexivity).
  destruct H as [e' Hrun]. exists e'. split; [exact Hrun|].
  destruct (batch_counter [0xE0824003; 0xEC000000; 0xEA000000]
              engine16_used e' 1) as [_ Hcount];
    [discriminate|vm_compute; split; congruence|vm_compute; reflexivity
    |exact Hrun|].
  rewrite Hcount. reflexivity.
Defined.

(** ** Loads of what the host wrote, and the post-indexed writeback *)

(** X21. A pre-indexed word load of four bytes that the host wrote with
    [writeMemory] gives the little-endian value of the bytes in Rd; a load
    into R15 sets the pc shadow to the same value. *)
Theorem write_then_load_word (realloc_ok : bool) (e e1 : Engine)
  (address b0 b1 b2 b3 ld : Z) :
  memory_ok e → registers_ok e →
  0 ≤ address →
  writeMemory realloc_ok e address [b0; b1; b2; b3] = Ok (true, e1) →
  is_load_store ld = true →
  checkCondition e (field_cond ld) = true →
  bit ld 20 = true → bit ld 22 = false → bit ld 24 = true →
  ls_address e ld = address →
  ∃ e2, executeInstruction e1 ld = Ok (true, e2)
        ∧ getRegister e2 (field_Rd ld)
          = b0 + Z.shiftl b1 8 + Z.shiftl b2 16 + Z.shiftl b3 24
        ∧ (field_Rd ld = 15 → getPC e2 = getRegister e2 15).
Proof.
  intros Hok Hregs Ha Hrun Hls Hcond HL HB HP Haddr.
  pose proof (length_registers_ok e Hregs) as Hlen.
  pose proof (field_Rd_range ld) as HRd.
  destruct (writeMemory_memory_ok _ _ _ _ _ Hok Ha Hrun)
    as (Hok1 & Hinit1 & Hfit1).
  destruct (writeMemory_inv _ _ _ _ _ Hok Ha Hrun)
    as (capacity1 & Hcap & Hfit & _ & _ & He1).
  cbn [length] in Hfit, Hfit1.
  assert (Hregs1 : registers e1 = registers e) by by rewrite He1.
  assert (Hcond1 : checkCondition e1 (field_cond ld) = true).
  { unfold checkCondition, cpsr, reg in *. by rewrite Hregs1. }
  assert (Haddr1 : ls_address e1 ld = address).
  { unfold ls_address, ls_indexed, ls_offset, reg in *. by rewrite Hregs1. }
  set (c1 := set_instructionCount e1 (wrap64 (instructionCount e1 + 1))).
  assert (Haddr2 : ls_address c1 ld = address) by exact Haddr1.
  assert (Hwidth : ls_width ld = 4) by (unfold ls_width; by rewrite HB).
  rewrite executeInstruction_load_store by done. fold c1.
  rewrite (executeLoadStore_pre c1 ld Hok1 Hinit1 HP);
    rewrite Haddr2, ?Hwidth;
    [|lia|change (memorySize c1) with (memorySize e1); lia].
  rewrite HL, HB. cbv zeta. eexists. split; [reflexivity|].
  set (w := load32 (buffer c1) address).
  set (e' := write_reg c1 (field_Rd ld) w).
  assert (Hw : reg e' (field_Rd ld) = w).
  { apply reg_write_reg_eq. unfold c1.
    cbn [registers set_instructionCount]. rewrite Hregs1. lia. }
  assert (Hvalue : w = b0 + Z.shiftl b1 8 + Z.shiftl b2 16 + Z.shiftl b3 24).
  { unfold w. change (buffer c1) with (buffer e1). rewrite He1.
    unfold buffer at 1. cbn [memory default]. unfold id.
    set (grown := buffer e ++ zeros (capacity1 - memoryCapacity e)).
    assert (Hglen : Z.of_nat (length grown) = capacity1).
    { unfold grown. destruct Hok as (Hblen & _ & _).
      rewrite length_app, Nat2Z.inj_add, length_zeros by lia. lia. }
    unfold load32.
    change (Z.of_nat 4) with 4 in Hfit.
    rewrite !load8_memcpy_to
      by (change (Z.of_nat (length [b0; b1; b2; b3])) with 4; lia).
    change (Z.of_nat (length [b0; b1; b2; b3])) with 4.
    rewrite !(proj2 (Z.leb_le _ _)), !(proj2 (Z.ltb_lt _ _)) by lia.
    cbn [andb].
    rewrite Z.sub_diag.
    replace (address + 1 - address) with 1 by lia.
    replace (address + 2 - address) with 2 by lia.
    replace (address + 3 - address) with 3 by lia.
    reflexivity. }
  destruct (Z.eqb_spec (field_Rd ld) 15) as [H15|H15].
  - rewrite getRegister_reg by lia. autorewrite with engine_frame.
    rewrite Hw. split; [exact Hvalue|]. intros _.
    rewrite getRegister_reg by lia. autorewrite with engine_frame.
    unfold getPC. cbn [pc set_pc]. by rewrite <- H15.
  - rewrite getRegister_reg by lia. rewrite Hw. split; [exact Hvalue|done].
Qed.

(** The bytes EF BE AD DE at 8 and LDR R2, [R1, #0] (0xE7912000) with
    R1 = 8. *)
Lemma write_then_load_word_example :
  ∃ e1 e2,
    writeMemory true (engine16_R1 8) 8 [0xEF; 0xBE; 0xAD; 0xDE] = Ok (true, e1)
    ∧ executeInstruction e1 0xE7912000 = Ok (true, e2)
    ∧ getRegister e2 2 = 0xDEADBEEF.
Proof.
  assert (H : ∃ e1, writeMemory true (engine16_R1 8) 8
                      [0xEF; 0xBE; 0xAD; 0xDE] = Ok (true, e1))
    by (eexists; vm_compute; reflexivity).
  destruct H as [e1 Hrun]. exists e1.
  destruct (write_then_load_word true (engine16_R1 8) e1 8
              0xEF 0xBE 0xAD 0xDE 0xE7912000) as (e2 & Hload & Hv & _);
    [repeat split; vm_compute; congruence|reflexivity|lia|exact Hrun
    |reflexivity|reflexivity|reflexivity|reflexivity|reflexivity
    |reflexivity|].
  exists e2. split; [exact Hrun|]. split; [exact Hload|exact Hv].
Defined.

(** X22. A post-indexed access (bit 24 clear) uses the base register as the
    address and afterwards writes base + offset or base - offset (modulo
    2^32) to Rn. The writeback comes last: in a load with Rd = Rn the loaded
    value is overwritten by it. *)
Theorem post_indexed_writeback (e : Engine) (instruction : Z) :
  initialized e → memory_ok e → registers_ok e →
  is_load_store instruction = true →
  checkCondition e (field_cond instruction) = true →
  bit instruction 24 = false →
  getRegister e (field_Rn instruction) + ls_width instruction
  ≤ getMemorySize e →
  ∃ e', executeInstruction e instruction = Ok (true, e')
        ∧ ls_address e instruction = getRegister e (field_Rn instruction)
        ∧ getRegister e' (field_Rn instruction)
          = if bit instruction 23
            then wrap32 (getRegister e (field_Rn instruction)
                         + ls_offset e instruction)
            else wrap32 (getRegister e (field_Rn instruction)
                         - ls_offset e instruction).
Proof.
  intros Hinit (Hblen & Hsize & Hcap) Hregs Hls Hcond HP Hfit.
  pose proof (length_registers_ok e Hregs) as Hlen.
  pose proof (field_Rn_range instruction) as HRn.
  pose proof (field_Rd_range instruction) as HRd.
  rewrite !getRegister_reg in * by lia.
  assert (Hbase : word32 (reg e (field_Rn instruction)))
    by (apply reg_word32; [done|lia]).
  unfold word32 in Hbase. unfold getMemorySize in Hfit.
  assert (Haddr : ls_address e instruction = reg e (field_Rn instruction)).
  { unfold ls_address. by rewrite HP. }
  rewrite executeInstruction_load_store by done.
  set (c := set_instructionCount e _).
  unfold executeLoadStore, ls_rejects.
  change (memory c) with (memory e). change (memorySize c) with (memorySize e).
  change (ls_address c instruction) with (ls_address e instruction).
  change (buffer c) with (buffer e).
  change (ls_indexed c instruction) with (ls_indexed e instruction).
  destruct (memory e) eqn:Hmem; [|by destruct Hinit].
  assert (Hw : 0 < ls_width instruction).
  { unfold ls_width. by destruct (bit instruction 22). }
  rewrite Haddr, wrap32_id by (unfold word32; lia).
  rewrite !(proj2 (Z.ltb_ge _ _)) by lia. rewrite HP.
  eexists. split; [reflexivity|]. split; [reflexivity|].
  rewrite getRegister_reg by lia.
  rewrite reg_write_reg_eq; [reflexivity|].
  destruct (bit instruction 20), (field_Rd instruction =? 15);
    unfold c; reg_len.
Qed.

(** LDRB R1, [R1], #4 as the executor decodes 0xE6D11004, with R1 = 8: the
    byte at 8 is read and R1 ends as 12. *)
Lemma post_indexed_writeback_example :
  ∃ e', executeInstruction (engine16_R1 8) 0xE6D11004 = Ok (true, e')
        ∧ getRegister e' 1 = 12.
Proof.
  destruct (post_indexed_writeback (engine16_R1 8) 0xE6D11004)
    as (e' & Hrun & _ & Hwb);
    [discriminate|repeat split; vm_compute; congruence|reflexivity
    |reflexivity|reflexivity|reflexivity|vm_compute; discriminate|].
  exists e'. split; [exact Hrun|]. exact Hwb.
Defined.

(** ** Addition and its carry *)

Lemma executeInstruction_data_processing e instruction :
  initialized e →
  field_opcode instruction = 0x0 → bit instruction 25 = false →
  checkCondition e (field_cond instruction) = true →
  executeInstruction e instruction
  = Ok (executeDataProcessing
          (set_instructionCount e (wrap64 (instructionCount e + 1)))
          instruction).
Proof.
  intros Hinit Hop Hform Hcond. unfold executeInstruction.
  destruct (memory e) as [buf|] eqn:Hmem; [|by destruct Hinit].
  by rewrite checkCondition_count, Hcond, Hop, Hform.
Qed.

Lemma add_carry a b :
  word32 a → word32 b → (wrap32 (a + b) <? a) = (2 ^ 32 <=? a + b).
Proof.
  unfold word32. intros Ha Hb.
  destruct (Z.leb_spec (2 ^ 32) (a + b)).
  - rewrite wrap32_overflow by lia. apply Z.ltb_lt. lia.
  - rewrite wrap32_id by (unfold word32; lia). apply Z.ltb_ge. lia.
Qed.

(** X23. ADD with the S bit and a destination other than R15: Rd receives a
    + b modulo 2^32 and no other register R0-R15 changes; afterwards CS
    holds exactly when the exact sum does not fit in 32 bits, EQ when the
    result is 0 and MI when its bit 31 is set. *)
Theorem adds_result_and_carry (e : Engine) (instruction : Z) :
  initialized e → registers_ok e →
  field_opcode instruction = 0x0 → bit instruction 25 = false →
  checkCondition e (field_cond instruction) = true →
  field_op instruction = 0x4 →
  bit instruction 20 = true →
  field_Rd instruction ≠ 15 →
  ∃ e', executeInstruction e instruction = Ok (true, e')
        ∧ let a := getRegister e (field_Rn instruction) in
          let b := operand2 e instruction in
          getRegister e' (field_Rd instruction) = wrap32 (a + b)
          ∧ (∀ r, 0 ≤ r ≤ 15 → r ≠ field_Rd instruction →
               getRegister e' r = getRegister e r)
          ∧ checkCondition e' 0x2 = (2 ^ 32 <=? a + b)
          ∧ checkCondition e' 0x0 = (wrap32 (a + b) =? 0)
          ∧ checkCondition e' 0x4 = bit (wrap32 (a + b)) 31.
Proof.
  intros Hinit Hregs Hop Hform Hcond Hadd HS HRd15.
  pose proof (length_registers_ok e Hregs) as Hlen.
  pose proof (field_Rn_range instruction) as HRn.
  pose proof (field_Rd_range instruction) as HRd.
  rewrite executeInstruction_data_processing by done.
  set (c := set_instructionCount e _).
  unfold executeDataProcessing. rewrite Hadd. cbn [alu].
  change (reg c (field_Rn instruction)) with (reg e (field_Rn instruction)).
  change (operand2 c instruction) with (operand2 e instruction).
  rewrite getRegister_reg by lia.
  set (a := reg e (field_Rn instruction)). set (b := operand2 e instruction).
  assert (Ha : word32 a) by (apply reg_word32; [done|lia]).
  assert (Hb : word32 b) by by apply operand2_word32.
  set (result := wrap32 (a + b)).
  change ((4 <? 8) || (11 <? 4)) with true. cbv iota.
  rewrite (proj2 (Z.eqb_neq _ _) HRd15).
  assert (Hupd : updates_flags instruction = true).
  { unfold updates_flags, sets_flags.
    by rewrite HS, (proj2 (Z.eqb_neq _ _) HRd15). }
  rewrite Hupd. eexists. split; [reflexivity|]. cbv zeta.
  set (e1 := write_reg c (field_Rd instruction) result).
  assert (Hlen1 : length (registers e1) = 17%nat) by (unfold e1, c; reg_len).
  assert (Hcpsr1 : cpsr e1 = cpsr e).
  { unfold cpsr, e1. by rewrite reg_write_reg_ne by lia. }
  split; [|split].
  - rewrite getRegister_reg by lia. rewrite reg_write_reg_ne by lia.
    apply reg_write_reg_eq. unfold c. reg_len.
  - intros r Hr Hne. rewrite !getRegister_reg by lia.
    rewrite reg_write_reg_ne by lia. unfold e1.
    by rewrite reg_write_reg_ne by lia.
  - unfold checkCondition. rewrite cpsr_write_reg by lia.
    destruct (new_cpsr_NZC (cpsr e1) result (result <? a)) as (-> & -> & ->).
    unfold result. by rewrite add_carry.
Qed.

(** Scenario 2 with the S bit: ADDS R4, R2, R3 (0xE0924003) with R2 = 10
    and R3 = 32 gives R4 = 42 and no carry. *)
Lemma adds_result_and_carry_example :
  ∃ e', executeInstruction (setRegister (setRegister engine16 2 10) 3 32)
          0xE0924003 = Ok (true, e')
        ∧ getRegister e' 4 = 42 ∧ checkCondition e' 0x2 = false.
Proof.
  destruct (adds_result_and_carry
              (setRegister (setRegister engine16 2 10) 3 32) 0xE0924003)
    as (e' & Hrun & Hv & _ & Hc & _);
    [discriminate|reflexivity|reflexivity|reflexivity|reflexivity
    |reflexivity|reflexivity|vm_compute; discriminate|].
  exists e'. split; [exact Hrun|]. split; [exact Hv|exact Hc].
Defined.

(** ** The buffer invariant across the interface *)

Lemma executeInstructions_memory_ok instructions : ∀ e n e',
  memory_ok e → executeInstructions e instructions = Ok (n, e') →
  memory_ok e'.
Proof.
  induction instructions as [|i rest IH]; intros e n e' Hok;
    cbn [executeInstructions].
  { by intros [_ <-]%Ok_pair_inv. }
  destruct (executeInstruction e i) as [[r e1]| |] eqn:Hstep;
    cbn [obind fst snd]; [|discriminate..].
  pose proof (executeInstruction_memory_ok _ _ _ _ Hok Hstep) as Hok1.
  destruct r; [|by intros [_ <-]%Ok_pair_inv].
  destruct (executeInstructions e1 rest) as [[n1 e2]| |] eqn:Hrest;
    cbn [obind fst snd]; [|discriminate..].
  intros [_ <-]%Ok_pair_inv. by eapply IH.
Qed.

(** X24. The engine keeps its memory well-formed: the buffer has exactly
    [memoryCapacity] bytes and the logical size never exceeds the capacity
    (so every access that passes a range check without wrapping lies inside
    the buffer). [init] establishes this and no operation of the interface
    that returns breaks it. *)
Theorem memory_invariant_kept (e : Engine) :
  memory_ok e →
  (∀ r value, memory_ok (setRegister e r value))
  ∧ (∀ value, memory_ok (setPC e value))
  ∧ (∀ instruction r e',
       executeInstruction e instruction = Ok (r, e') → memory_ok e')
  ∧ (∀ instructions n e',
       executeInstructions e instructions = Ok (n, e') → memory_ok e')
  ∧ (∀ realloc_ok address data e',
       0 ≤ address →
       writeMemory realloc_ok e address data = Ok (true, e') → memory_ok e')
  ∧ (∀ calloc_ok n e',
       0 ≤ n < 2 ^ 32 → init calloc_ok e n = (true, e') → memory_ok e').
Proof.
  intros Hok. split; [|split; [|split; [|split; [|split]]]].
  - intros r value. destruct (setRegister_memory e r value) as (Hm & Hs & Hc).
    by apply (memory_ok_same e).
  - intros value. by apply (memory_ok_same e).
  - intros instruction r e'. by apply executeInstruction_memory_ok.
  - intros instructions n e'. by apply executeInstructions_memory_ok.
  - intros realloc_ok address data e' Ha Hrun.
    by destruct (writeMemory_memory_ok _ _ _ _ _ Hok Ha Hrun).
  - intros calloc_ok n e' Hn Hinit.
    by destruct (init_memory_ok _ _ _ _ Hn Hinit).
Qed.

Lemma memory_invariant_kept_example :
  memory_ok (setPC engine16 0x40)
  ∧ ∃ e', writeMemory true engine16 14 [1; 2; 3; 4; 5] = Ok (true, e')
          ∧ memory_ok e'.
Proof.
  assert (Hok : memory_ok engine16) by (repeat split; vm_compute; congruence).
  destruct (memory_invariant_kept engine16 Hok)
    as (_ & HsetPC & _ & _ & Hwrite & _).
  split; [apply HsetPC|].
  assert (H : ∃ e', writeMemory true engine16 14 [1; 2; 3; 4; 5]
                    = Ok (true, e'))
    by (eexists; vm_compute; reflexivity).
  destruct H as [e' Hrun]. exists e'. split; [exact Hrun|].
  apply (Hwrite true 14 [1; 2; 3; 4; 5] e'); [lia|exact Hrun].
Defined.
